(** * moonwalk_tracker: a shallow embedding of the step-challenge tracker

    The development follows [moonwalk_tracker.py]: the Python string and
    integer primitives the program relies on, [format_steps], the page
    fetching loop [get_all_game_data], the aggregation
    [process_player_data], the evaluation [check_task_completion] with the
    string conversion [display_results] feeds it, and the control flow of
    [main]. *)

From Stdlib Require Import ZArith Ascii String List Bool Lia.
From Stdlib Require Import Decimal DecimalString DecimalZ Sorted.
From stdpp Require Import base option list gmap strings.

Import ListNotations.

#[local] Open Scope Z_scope.
#[local] Open Scope string_scope.
#[local] Open Scope list_scope.

(** ** Python values and primitives *)

Module Py.

(** The exceptions the modelled code can raise. *)
Inductive exn := TypeError | ValueError.

(** A computation that returns or raises. *)
Inductive exc (A : Type) :=
| Ok (a : A)
| Raise (e : exn).
Arguments Ok {A} a.
Arguments Raise {A} e.

#[export] Instance exc_ret : MRet exc := fun A a => Ok a.
#[export] Instance exc_bind : MBind exc := fun A B k m =>
  match m with
  | Ok a => k a
  | Raise e => Raise e
  end.

(** The values a JSON step count can take: [null], an integer or a string.
    (Floating point numbers and booleans are outside the model.) *)
Inductive value :=
| VNone
| VInt (z : Z)
| VStr (s : string).

(** *** Strings *)

(** [c in s] for a one-character [c]. *)
Fixpoint has_char (c : ascii) (s : string) : bool :=
  match s with
  | EmptyString => false
  | String a r => Ascii.eqb a c || has_char c r
  end.

(** [pat in s]: substring test. *)
Fixpoint contains (pat s : string) : bool :=
  String.prefix pat s ||
  match s with
  | EmptyString => false
  | String _ r => contains pat r
  end.

(** [s.replace(old, new)] for a non-empty [old]: occurrences are found from
    the left and do not overlap.  [skip] counts the characters of a matched
    occurrence that are still to be dropped. *)
Fixpoint replace_from (old new : string) (skip : nat) (s : string) : string :=
  match s with
  | EmptyString => EmptyString
  | String c r =>
    match skip with
    | S k => replace_from old new k r
    | O =>
      if String.prefix old s
      then new +:+ replace_from old new (Nat.pred (String.length old)) r
      else String c (replace_from old new O r)
    end
  end.

Definition replace (old new s : string) : string := replace_from old new O s.

(** [s.split(sep)[0]] for a one-character [sep]: the part before the first
    separator, the whole string when there is none. *)
Fixpoint split_head (sep : ascii) (s : string) : string :=
  match s with
  | EmptyString => EmptyString
  | String c r => if Ascii.eqb c sep then EmptyString else String c (split_head sep r)
  end.

(** [a <= b] on strings: lexicographic order on character codes. *)
Definition str_le (a b : string) : bool := String.leb a b.

(** *** Integers as text *)

(** [str(z)], also what [f"{z}"] inserts. *)
Definition str (z : Z) : string := NilZero.string_of_int (Z.to_int z).

(** [int(s)] on an optional sign followed by decimal digits; anything else
    raises [ValueError].  (Surrounding white space and underscores, which
    Python also accepts, do not occur in the strings this program builds and
    are not modelled.) *)
Definition int (s : string) : exc Z :=
  let digits (ds : string) (sign : Z) :=
    match NilZero.uint_of_string ds with
    | Some d => Ok (sign * Z.of_uint d)
    | None => Raise ValueError
    end in
  match s with
  | String "-" ds => digits ds (-1)
  | String "+" ds => digits ds 1
  | _ => digits s 1
  end.

(** The grouping of [format(z, ",")]: a comma before every group of three
    digits counted from the right. *)
Fixpoint group_thousands (digits : string) : string :=
  match digits with
  | EmptyString => EmptyString
  | String c r =>
    String c
      (if Nat.ltb 0 (String.length r) && Nat.eqb (String.length r mod 3) 0
       then String "," (group_thousands r)
       else group_thousands r)
  end.

(** [f"{z:,}"]. *)
Definition format_comma (z : Z) : string :=
  match Z.to_int z with
  | Pos d => group_thousands (NilZero.string_of_uint d)
  | Neg d => String "-" (group_thousands (NilZero.string_of_uint d))
  end.

(** *** Comparisons between values *)

(** [a > b]: defined between two integers or two strings. *)
Definition gt (a b : value) : exc bool :=
  match a, b with
  | VInt x, VInt y => Ok (Z.ltb y x)
  | VStr s, VStr t => Ok (negb (String.leb s t))
  | _, _ => Raise TypeError
  end.

(** [a >= b]. *)
Definition ge (a b : value) : exc bool :=
  match a, b with
  | VInt x, VInt y => Ok (Z.leb y x)
  | VStr s, VStr t => Ok (String.leb t s)
  | _, _ => Raise TypeError
  end.

End Py.

Import Py.


(** ** Data exchanged with the API *)

(** One entry of a player's ['steps'] list.  [steps] is [None] when the key
    is absent, so that [step.get('steps', 0)] falls back to [0]. *)
Record step_entry := { day : string; steps : option value }.

Definition get_steps (step : step_entry) : value := default (VInt 0) (steps step).

(** The ['user'] object of a player and the player object itself; an absent
    key is [None]. *)
Record user := { name : option string }.
Record player := { player_user : option user; player_steps : option (list step_entry) }.

(** The JSON envelope of one page.  [more] tells whether the envelope holds
    other keys than ['val']; an envelope with no key at all is falsy. *)
Record data := { val : option (list player); more : bool }.

Definition truthy (d : data) : bool := bool_decide (is_Some (val d)) || more d.

(** What the remote endpoint answers to one request [skip], [take]: a
    decoded envelope, or [None] when [requests] raised. *)
Definition reply := Z -> Z -> option data.

(** Lines written to the console, one constructor per [print]. *)
Inductive event :=
| Fetching (skip take : Z)          (* Fetching data: skip=.., take=.. *)
| Fetched (n : Z)                   (* Fetched: n players *)
| ApiRequestFailed                  (* API request failed: .. *)
| Retrying (attempt : Z)            (* Failed to fetch data, retrying attempt k *)
| MaxRetriesReached                 (* Failed to fetch data, reached maximum retry attempts *)
| EmptyBatch (skip : Z)             (* Warning: No data fetched for current batch *)
| FetchedSoFar (n : Z)              (* Fetched data for n players *)
| ReachedEnd                        (* Reached the end of the data *)
| FinalFetched (n : Z)              (* Final fetched n players' data *)
| StartProcessing (n : Z)           (* Starting to process n players' data *)
| SkippingNoUsername (i : Z)        (* Skipping player i: No username *)
| Processed (i : Z)                 (* Processed i players *)
| ErrorProcessing (i : Z) (e : exn) (* Error processing player i data: .. *)
| DoneProcessing (n : Z)            (* Successfully processed n players' data *)
| Usage                             (* Usage: python moonwalk_tracker.py <game_code> *)
| FailedReadUsers                   (* Failed to read user information from CSV file *)
| StartFetching                     (* Starting to fetch game data... *)
| FailedOverview                    (* Failed to get game overview *)
| GameInformation                   (* the game information block *)
| FailedPlayerData                  (* Failed to get player data *)
| FailedGameDates                   (* Failed to get game dates *)
| SuccessfullyFetched               (* Successfully fetched game data *)
| ErrorProcessingData               (* Error processing data *)
| NoPlayerData                      (* No player data found *)
| NoDataFound                       (* No data found *)
| UserNotFound (username : string)  (* Warning: User .. not found *)
| NoDataForOurUsers                 (* No data found for our users *)
| StepTargetLine (target : Z)       (* Step Target: .. steps *)
| DataSaved                         (* Data saved to: .. *)
| Traceback (e : exn).              (* an exception nobody caught *)

(** ** format_steps *)

(** [pd.isna(steps)] on the modelled values. *)
Definition isna (steps : value) : bool :=
  match steps with
  | VNone => true
  | _ => false
  end.

(** [steps == 0]. *)
Definition eq_zero (steps : value) : bool :=
  match steps with
  | VInt z => Z.eqb z 0
  | _ => false
  end.

(** [int(steps)]. *)
Definition to_int (steps : value) : exc Z :=
  match steps with
  | VInt z => Ok z
  | VStr s => int s
  | VNone => Raise TypeError
  end.

(** The statements of [format_steps] after the test for a marker. *)
Definition format_number (steps : value) : exc string :=
  if isna steps || eq_zero steps then Ok "-"
  else
    capped ← ge steps (VInt 30000);
    if capped : bool then Ok "30k+"
    else n ← to_int steps; Ok (format_comma n).

Definition format_steps (steps : value) : exc string :=
  match steps with
  | VStr s => if contains "k+" s then Ok s else format_number steps
  | _ => format_number steps
  end.

(** ** get_game_data and get_all_game_data *)

Definition take : Z := 20.
Definition max_retries : Z := 3.

Definition len {A} (l : list A) : Z := Z.of_nat (length l).

(** One request.  The answer comes from the endpoint; the function logs the
    request and its outcome. *)
Definition get_game_data (r : reply) (skip take : Z) : option data * list event :=
  match r skip take with
  | Some d => (Some d, [Fetching skip take; Fetched (len (default [] (val d)))])
  | None => (None, [Fetching skip take; ApiRequestFailed])
  end.

(** The variables of the loop of [get_all_game_data], with the console. *)
Record loop_state := {
  all_players : list player;
  skip : Z;
  retry_count : Z;
  console : list event
}.

Inductive control := Continue (st : loop_state) | Break (st : loop_state).

Definition say (st : loop_state) (evs : list event) : loop_state :=
  {| all_players := all_players st; skip := skip st;
     retry_count := retry_count st; console := console st ++ evs |}.

(** [not data]. *)
Definition falsy (d : option data) : bool :=
  match d with
  | Some d' => negb (truthy d')
  | None => true
  end.

(** [data.get('val', [])]. *)
Definition get_val (d : option data) : list player :=
  match d with
  | Some d' => default [] (val d')
  | None => []
  end.

(** One iteration of the [while True] loop, given the endpoint's answer to
    the request it issues.  (The [time.sleep] calls are not modelled.) *)
Definition loop_body (r : reply) (st : loop_state) : control :=
  let '(d, evs) := get_game_data r (skip st) take in
  let st := say st evs in
  if falsy d then
    if Z.ltb (retry_count st) max_retries
    then Continue {| all_players := all_players st; skip := skip st;
                     retry_count := retry_count st + 1;
                     console := console st ++ [Retrying (retry_count st + 1)] |}
    else Break (say st [MaxRetriesReached])
  else
    let players := get_val d in
    let current_batch := len players in
    if Z.eqb current_batch 0
    then Break {| all_players := all_players st; skip := skip st; retry_count := 0;
                  console := console st ++ [EmptyBatch (skip st)] |}
    else
      let all := all_players st ++ players in
      let st' := {| all_players := all; skip := skip st; retry_count := 0;
                    console := console st ++ [FetchedSoFar (len all)] |} in
      if Z.ltb current_batch take then Break (say st' [ReachedEnd])
      else Continue {| all_players := all; skip := skip st + take;
                       retry_count := 0; console := console st' |}.

(** The loop runs against the successive answers of the endpoint.  [None]
    means that the answers given do not bring the loop to a [break]. *)
Fixpoint fetch_loop (net : list reply) (st : loop_state) : option (loop_state * list reply) :=
  match net with
  | [] => None
  | r :: net' =>
    match loop_body r st with
    | Continue st' => fetch_loop net' st'
    | Break st' => Some (st', net')
    end
  end.

Definition initial_state : loop_state :=
  {| all_players := []; skip := 0; retry_count := 0; console := [] |}.

(** The result is the list returned and the lines printed. *)
Definition get_all_game_data (net : list reply) : option (list player * list event) :=
  match fetch_loop net initial_state with
  | Some (st, _) => Some (all_players st, console st ++ [FinalFetched (len (all_players st))])
  | None => None
  end.

(** ** process_player_data *)

(** The value stored for one username. *)
Record player_entry := {
  entry_steps : list string;
  total_completed : Z;
  highest_steps : value
}.

(** The loop that fills [formatted_steps]. *)
Fixpoint format_all (steps_data : list step_entry) : exc (list string) :=
  match steps_data with
  | [] => Ok []
  | step :: rest =>
    s ← format_steps (get_steps step);
    l ← format_all rest;
    Ok (s :: l)
  end.

(** [sum(1 for s in steps_data if s.get('steps', 0) > 0)]. *)
Fixpoint count_positive (steps_data : list step_entry) : exc Z :=
  match steps_data with
  | [] => Ok 0
  | s :: rest =>
    b ← gt (get_steps s) (VInt 0);
    n ← count_positive rest;
    Ok ((if b : bool then 1 else 0) + n)
  end.

(** [max(.., default=d)]: the first item, replaced by each later item that
    compares greater. *)
Fixpoint max_from (current : value) (items : list value) : exc value :=
  match items with
  | [] => Ok current
  | x :: rest =>
    b ← gt x current;
    max_from (if b : bool then x else current) rest
  end.

Definition max_default (items : list value) (d : value) : exc value :=
  match items with
  | [] => Ok d
  | x :: rest => max_from x rest
  end.

(** The body of the [try] for one player: [Ok None] is the [continue] taken
    for a player without username. *)
Definition process_player (p : player) : exc (option (string * player_entry)) :=
  let user_info := default {| name := None |} (player_user p) in
  let username := default "" (name user_info) in
  if bool_decide (username = "") then Ok None
  else
    let steps_data := default [] (player_steps p) in
    formatted_steps ← format_all steps_data;
    total ← count_positive steps_data;
    highest ← max_default (map get_steps steps_data) (VInt 0);
    Ok (Some (username, {| entry_steps := formatted_steps;
                           total_completed := total;
                           highest_steps := highest |})).

(** The [for] loop over [enumerate(players, 1)]. *)
Fixpoint process_players (i : Z) (players : list player)
    (all_players_data : gmap string player_entry) (out : list event)
    : gmap string player_entry * list event :=
  match players with
  | [] => (all_players_data, out)
  | p :: rest =>
    match process_player p with
    | Ok None => process_players (i + 1) rest all_players_data (out ++ [SkippingNoUsername i])
    | Ok (Some (username, entry)) =>
      process_players (i + 1) rest (<[username := entry]> all_players_data)
        (if Z.eqb (i mod 50) 0 then out ++ [Processed i] else out)
    | Raise e => process_players (i + 1) rest all_players_data (out ++ [ErrorProcessing i e])
    end
  end.

Definition process_player_data (players : list player)
    : gmap string player_entry * list event :=
  let '(all_players_data, out) := process_players 1 players ∅ [StartProcessing (len players)] in
  (all_players_data, out ++ [DoneProcessing (Z.of_nat (size all_players_data))]).

(** ** check_task_completion *)

(** The text of the third result. *)
Definition failed_text (completed_days required_days : Z) : string :=
  "Failed(" +:+ str completed_days +:+ "/" +:+ str required_days +:+ ")".

Definition step_date (step : step_entry) : string :=
  if contains "T" (day step) then split_head "T" (day step) else day step.

(** The [for] loop, from the given values of the two counters. *)
Fixpoint count_days (steps_data : list step_entry) (step_target : Z) (current_date : string)
    (completed_days required_days : Z) : exc (Z * Z) :=
  match steps_data with
  | [] => Ok (completed_days, required_days)
  | step :: rest =>
    if str_le (step_date step) current_date then
      met ← ge (get_steps step) (VInt step_target);
      count_days rest step_target current_date
        (if met : bool then completed_days + 1 else completed_days) (required_days + 1)
    else count_days rest step_target current_date completed_days required_days
  end.

Definition check_task_completion (steps_data : list step_entry) (step_target : Z)
    (current_date : string) : exc string :=
  '(completed_days, required_days) ← count_days steps_data step_target current_date 0 0;
  if Z.eqb required_days 0 then Ok "-"
  else if Z.eqb completed_days required_days then Ok "Complete"
  else Ok (failed_text completed_days required_days).

(** ** display_results *)

(** A line of the roster read by [get_usernames_from_csv]. *)
Record roster_entry := { roster_id : Z; roster_status : string }.

(** A row of the report and the exported table. *)
Record row := {
  row_id : Z;
  row_username : string;
  row_steps : list string;
  row_status : string
}.
Record csv := { headers : list string; rows : list row }.

(** The conversion applied to a displayed value before the evaluation:
    [int(s.replace(',', '').replace('k+', '30000').replace('-', '0'))]. *)
Definition steps_to_int (s : string) : exc Z :=
  int (replace "-" "0" (replace "k+" "30000" (replace "," "" s))).

(** The ['steps'] value built for the date of index [i]. *)
Definition comparable_steps (steps : list string) (i : nat) : exc Z :=
  match steps !! i with
  | Some s => if bool_decide (s ≠ "-") then steps_to_int s else Ok 0
  | None => Ok 0
  end.

(** The list comprehension over [enumerate(game_dates)], from index [i]. *)
Fixpoint evaluation_input (steps : list string) (i : nat) (game_dates : list string)
    : exc (list step_entry) :=
  match game_dates with
  | [] => Ok []
  | date :: rest =>
    n ← comparable_steps steps i;
    l ← evaluation_input steps (S i) rest;
    Ok ({| day := date; steps := Some (VInt n) |} :: l)
  end.

(** [while len(steps) < len(game_dates): steps.append('-')]. *)
Definition pad (steps : list string) (n : nat) : list string :=
  steps ++ replicate (n - length steps) "-".

(** The row of one player. *)
Definition player_row (ident : Z) (username : string) (steps : list string)
    (game_dates : list string) (step_target : Z) (current_date : string) : exc row :=
  let steps := pad steps (length game_dates) in
  input ← evaluation_input steps 0 game_dates;
  completion ← check_task_completion input step_target current_date;
  Ok {| row_id := ident; row_username := username;
        row_steps := steps; row_status := completion |}.

(** [sorted(.., key=id)]: a stable sort. *)
Fixpoint insert_by_id (x : string * (Z * list string)) (l : list (string * (Z * list string)))
    : list (string * (Z * list string)) :=
  match l with
  | [] => [x]
  | y :: r => if Z.leb (fst (snd x)) (fst (snd y)) then x :: l else y :: insert_by_id x r
  end.

Definition sorted_by_id (l : list (string * (Z * list string)))
    : list (string * (Z * list string)) :=
  foldr insert_by_id [] l.

(** The first loop: the roster users found among the players, in roster
    order, and a warning for each of the others. *)
Fixpoint our_players (player_data : gmap string player_entry)
    (user_info : list (string * roster_entry))
    : list (string * (Z * list string)) * list event :=
  match user_info with
  | [] => ([], [])
  | (username, info) :: rest =>
    let '(found, out) := our_players player_data rest in
    match player_data !! username with
    | Some e => ((username, (roster_id info, entry_steps e)) :: found, out)
    | None => (found, UserNotFound username :: out)
    end
  end.

Fixpoint player_rows (players : list (string * (Z * list string)))
    (game_dates : list string) (step_target : Z) (current_date : string) : exc (list row) :=
  match players with
  | [] => Ok []
  | (username, (ident, steps)) :: rest =>
    r ← player_row ident username steps game_dates step_target current_date;
    l ← player_rows rest game_dates step_target current_date;
    Ok (r :: l)
  end.

(** ** save_to_csv *)

(** The cells of a row of the report: [[id, username]], the step values and
    the completion status. *)
Definition row_cells (r : row) : nat := 2 + length (row_steps r) + 1.

(** [pd.DataFrame(data, columns=headers)]: the frame of a list of rows is as
    wide as its widest row (shorter rows are filled up), and pandas raises
    [ValueError] when the number of column names differs from that width.
    No shape is checked for an empty list of rows. *)
Definition data_frame (data : list row) (headers : list string) : exc csv :=
  match data with
  | [] => Ok {| headers := headers; rows := data |}
  | _ :: _ =>
    if Nat.eqb (foldr Nat.max 0%nat (map row_cells data)) (length headers)
    then Ok {| headers := headers; rows := data |}
    else Raise ValueError
  end.

(** The player table [save_to_csv] writes, and the line it prints after
    writing.  (The frame of the campaign information has a fixed shape;
    writing the file is taken to succeed.) *)
Definition save_to_csv (data : list row) (headers : list string) : exc (list event * csv) :=
  table ← data_frame data headers;
  Ok ([DataSaved], table).

(** ** display_results: the report *)

(** The lines printed, and either the table saved (if any) or the exception
    that ended the call.  (The debug lines and the rendered table are left
    out of the console.) *)
Definition display_results (player_data : gmap string player_entry)
    (user_info : list (string * roster_entry)) (game_dates : list string)
    (step_target : Z) (current_date : string) : list event * exc (option csv) :=
  if bool_decide (player_data = ∅) then ([NoDataFound], Ok None)
  else
    let '(our_data, out) := our_players player_data user_info in
    if bool_decide (our_data = []) then (out ++ [NoDataForOurUsers], Ok None)
    else
      let sorted_players := sorted_by_id our_data in
      let headers := ["ID"; "Username"]
                     ++ map (fun date => if contains "T" date then split_head "T" date else date)
                            game_dates
                     ++ ["Task Status"] in
      let out := out ++ [StepTargetLine step_target] in
      match player_rows sorted_players game_dates step_target current_date with
      | Raise e => (out, Raise e)
      | Ok data =>
        match save_to_csv data headers with
        | Raise e => (out, Raise e)
        | Ok (out', table) => (out ++ out', Ok (Some table))
        end
      end.

(** ** main *)

(** The campaign overview, as far as the run uses it. *)
Record game_info := { game_name : string; step_target : Z; total_players : Z }.

(** What a run finds outside the program: the command line, the roster
    [get_usernames_from_csv] returns (empty when the file cannot be read),
    the result of [get_game_overview], the successive answers of the player
    endpoint and the current date. *)
Record world := {
  argv : list string;
  users_csv : list (string * roster_entry);
  overview : option game_info;
  network : list reply;
  today : string
}.

(** What a run leaves behind: the console, the exit status of the process
    and the table written by [save_to_csv], if any. *)
Record run := { printed : list event; exit_status : Z; saved : option csv }.

(** [game_dates], read from the first player of the first page. *)
Definition dates_of_first_page (initial_data : option data) : list string :=
  match get_val initial_data with
  | first_player :: _ => map day (default [] (player_steps first_player))
  | [] => []
  end.

(** [None] when the answers in [network] run out before the fetch ends. *)
Definition main (w : world) : option run :=
  if negb (Nat.eqb (length (argv w)) 2)
  then Some {| printed := [Usage]; exit_status := 1; saved := None |}
  else
    let user_info := users_csv w in
    if bool_decide (user_info = [])
    then Some {| printed := [FailedReadUsers]; exit_status := 0; saved := None |}
    else
      match overview w with
      | None => Some {| printed := [StartFetching; FailedOverview];
                        exit_status := 0; saved := None |}
      | Some info =>
        match network w with
        | [] => None
        | r :: net =>
          let '(initial_data, out1) := get_game_data r 0 20 in
          let out := [StartFetching; GameInformation] ++ out1 in
          if falsy initial_data
          then Some {| printed := out ++ [FailedPlayerData]; exit_status := 0; saved := None |}
          else
            let game_dates := dates_of_first_page initial_data in
            if bool_decide (game_dates = [])
            then Some {| printed := out ++ [FailedGameDates]; exit_status := 0; saved := None |}
            else
              match get_all_game_data net with
              | None => None
              | Some (players, out2) =>
                let out := out ++ out2 in
                if bool_decide (players = [])
                then Some {| printed := out ++ [NoPlayerData]; exit_status := 0; saved := None |}
                else
                  let '(player_data, out3) := process_player_data players in
                  let out := out ++ [SuccessfullyFetched] ++ out3 in
                  if bool_decide (player_data = ∅)
                  then Some {| printed := out ++ [ErrorProcessingData];
                               exit_status := 0; saved := None |}
                  else
                    match display_results player_data user_info game_dates
                            (step_target info) (today w) with
                    | (out4, Ok table) =>
                      Some {| printed := out ++ out4; exit_status := 0; saved := table |}
                    | (out4, Raise e) =>
                      Some {| printed := out ++ out4 ++ [Traceback e];
                              exit_status := 1; saved := None |}
                    end
              end
        end
      end.

(** ** The vocabulary of the specification *)

(** The normalised step value of the specification.  In the program a step
    value is the string [format_steps] returns; [display] gives the string
    that stands for each variant. *)
Inductive StepValue := Missing | Capped | Numeric (n : Z).

Definition display (v : StepValue) : string :=
  match v with
  | Missing => "-"
  | Capped => "30k+"
  | Numeric n => format_comma n
  end.

(** The comparable count, in the specification's words. *)
Definition spec_comparable (v : StepValue) : Z :=
  match v with
  | Numeric n => n
  | Capped => 30000
  | Missing => 0
  end.

(** Whether a day counts as completed, in the specification's words. *)
Definition spec_day_completed (v : StepValue) (step_target : Z) : bool :=
  Z.leb step_target (spec_comparable v).

(** [highestSteps] in the specification's words: the largest count among the
    entries that are neither Missing (zero) nor Capped (30000 and more), and
    0 when there is none. *)
Definition spec_highest_steps (counts : list Z) : Z :=
  foldr Z.max 0 (List.filter (fun n => Z.ltb 0 n && Z.ltb n 30000) counts).

(** [ceil(n / d)]. *)
Definition ceil_div (n d : Z) : Z := (n + d - 1) / d.

(** ** The endpoint *)

(** An endpoint that holds the players [db] and answers a request with the
    slice [db[skip : skip + take]]. *)
Definition serve (db : list player) : reply :=
  fun skip take =>
    Some {| val := Some (firstn (Z.to_nat take) (skipn (Z.to_nat skip) db)); more := true |}.

(** A request that fails. *)
Definition failing : reply := fun _ _ => None.

(** An answer with the given page. *)
Definition page (players : list player) : reply :=
  fun _ _ => Some {| val := Some players; more := true |}.

Definition is_fetched (e : event) : bool :=
  match e with
  | Fetched _ => true
  | _ => false
  end.

(** The requests that were answered, and the offsets of all requests, as the
    console shows them. *)
Definition successful_requests (out : list event) : Z :=
  len (List.filter is_fetched out).

Fixpoint requested_offsets (out : list event) : list Z :=
  match out with
  | [] => []
  | Fetching skip _ :: rest => skip :: requested_offsets rest
  | _ :: rest => requested_offsets rest
  end.

(** ** Players as the aggregation sees them *)

(** The username the aggregation reads: [''] when the user or the name is
    absent. *)
Definition username_of (p : player) : string :=
  default "" (name (default {| name := None |} (player_user p))).

(** The raw counts of a player, [0] standing for an absent one. *)
Definition raw_counts (p : player) : list value :=
  map get_steps (default [] (player_steps p)).

Definition is_int (v : value) : bool :=
  match v with
  | VInt _ => true
  | _ => false
  end.

(** A player whose counts are all integers. *)
Definition integer_counts (p : player) : Prop :=
  Forall (fun v => is_int v = true) (raw_counts p).

(** A player with the given name and integer counts, one per day. *)
Definition make_player (username : string) (counts : list Z) : player :=
  {| player_user := Some {| name := Some username |};
     player_steps := Some (map (fun n => {| day := "2024-01-01"; steps := Some (VInt n) |}) counts) |}.

(** A player without username. *)
Definition nameless_player (counts : list Z) : player :=
  {| player_user := Some {| name := None |};
     player_steps := Some (map (fun n => {| day := "2024-01-01"; steps := Some (VInt n) |}) counts) |}.

(** ** get_usernames_from_csv *)

(** A row of the roster file: the cell of the [Name] column (a text, a
    number, or [VNone] for an empty cell, which pandas reads as NaN), the ID
    and the account status. *)
Record roster_row := { Name : value; ID : Z; account_status : string }.

(** [user_info[k] = v] on a dictionary kept as the list of its items: a key
    that is present keeps its place and takes the new value. *)
Fixpoint dict_set (k : string) (v : roster_entry) (d : list (string * roster_entry))
    : list (string * roster_entry) :=
  match d with
  | [] => [(k, v)]
  | (k', v') :: rest =>
    if bool_decide (k' = k) then (k, v) :: rest else (k', v') :: dict_set k v rest
  end.

(** The body of the loop over the rows. *)
Definition add_roster_row (user_info : list (string * roster_entry)) (row : roster_row)
    : list (string * roster_entry) :=
  match Name row with
  | VStr name =>
    dict_set (replace "@" "" name)
             {| roster_id := ID row; roster_status := account_status row |} user_info
  | _ => user_info
  end.

(** [frame] is the table read by [pd.read_csv], [None] when reading it or
    finding its columns raises: the [except] clause then returns [{}]. *)
Definition get_usernames_from_csv (frame : option (list roster_row))
    : list (string * roster_entry) :=
  match frame with
  | Some table => foldl add_roster_row [] table
  | None => []
  end.

(** A roster file with a repeated name, an empty cell and names written
    with ['@']. *)
Definition roster_file : list roster_row :=
  [ {| Name := VStr "@walker"; ID := 7; account_status := "ok" |};
    {| Name := VNone; ID := 8; account_status := "ok" |};
    {| Name := VStr "ali@ce"; ID := 2; account_status := "ok" |};
    {| Name := VStr "walker"; ID := 9; account_status := "banned" |} ].

(** ** Auxiliary notions used in the proofs *)

(** Decimal digits and strings made of them. *)
Definition is_digit (c : ascii) : bool :=
  match NilEmpty.uint_of_string (String c EmptyString) with
  | Some _ => true
  | None => false
  end.

Fixpoint all_digits (s : string) : bool :=
  match s with
  | EmptyString => true
  | String c r => is_digit c && all_digits r
  end.

(** The days the evaluation looks at, and what it counts, written as
    filters over the series. *)
Definition due (current_date : string) (step : step_entry) : bool :=
  str_le (step_date step) current_date.

Definition met (step_target : Z) (step : step_entry) : bool :=
  match get_steps step with
  | VInt n => Z.leb step_target n
  | _ => false
  end.

Definition required_days_of (steps_data : list step_entry) (current_date : string) : Z :=
  len (List.filter (due current_date) steps_data).

Definition completed_days_of (steps_data : list step_entry) (step_target : Z)
    (current_date : string) : Z :=
  len (List.filter (fun step => due current_date step && met step_target step) steps_data).

(** A series whose counts are integers on the days that are due. *)
Definition numeric_when_due (current_date : string) (steps_data : list step_entry) : Prop :=
  Forall (fun step => due current_date step = true -> is_int (get_steps step) = true) steps_data.

(** The comparable count the program derives from a displayed value. *)
Definition code_comparable (v : StepValue) : Z :=
  match v with
  | Numeric n => n
  | Capped => 3030000
  | Missing => 0
  end.


(** What the loop of [process_player_data] stores for a player, if
    anything: nothing for a player without username, nothing when the body
    raises. *)
Definition accepted (p : player) : option (string * player_entry) :=
  match process_player p with
  | Ok (Some x) => Some x
  | _ => None
  end.

(** [m] is the largest of [counts], or 0 when there is none. *)
Definition maximum_of (counts : list Z) (m : Z) : Prop :=
  match counts with
  | [] => m = 0
  | _ => In m counts /\ Forall (fun x => x <= m) counts
  end.

(** One assignment [all_players_data[username] = ..]. *)
Definition store (acc : gmap string player_entry) (x : string * player_entry)
    : gmap string player_entry :=
  <[x.1 := x.2]> acc.

(** A batch of 100 players with distinct usernames, the 57th of which has
    no username. *)
Definition example_player (i : nat) : player :=
  make_player ("user" +:+ str (Z.of_nat i)) [12000; 8000].

Definition example_before : list player := map example_player (seq 1 56).
Definition example_after : list player := map example_player (seq 58 43).
Definition example_batch : list player :=
  example_before ++ nameless_player [5000] :: example_after.

(** A player with a username whose only count is a text without marker. *)
Definition player_with_text : player :=
  {| player_user := Some {| name := Some "bob" |};
     player_steps := Some [{| day := "2024-01-01"; steps := Some (VStr "abc") |}] |}.

(** The state after the given answers when none of them ends the loop. *)
Fixpoint iterate (net : list reply) (st : loop_state) : option loop_state :=
  match net with
  | [] => Some st
  | r :: net' =>
    match loop_body r st with
    | Continue st' => iterate net' st'
    | Break _ => None
    end
  end.

(** The answer to the request a state issues, and the lines the request
    prints. *)
Definition answer (r : reply) (st : loop_state) : option data := r (skip st) take.

Definition request_lines (r : reply) (st : loop_state) : list event :=
  (get_game_data r (skip st) take).2.

(** The lines that end an iteration which received a page. *)
Definition page_lines (st : loop_state) (players : list player) : list event :=
  if Z.eqb (len players) 0 then [EmptyBatch (skip st)]
  else if Z.ltb (len players) take
       then [FetchedSoFar (len (all_players st ++ players)); ReachedEnd]
       else [FetchedSoFar (len (all_players st ++ players))].

(** What holds of the loop variables at the head of every iteration. *)
Definition loop_invariant (st : loop_state) : Prop :=
  0 <= retry_count st <= max_retries /\ MaxRetriesReached ∉ console st.

(** A page of twenty players, and the answers of the retry scenario: two
    full pages, then two failures at offset 40. *)
Definition full_page : list player :=
  map (fun i => make_player ("p" +:+ str (Z.of_nat i)) [9000]) (seq 0 20).

Definition retry_scenario : list reply :=
  [page full_page; page full_page; failing; failing].

(** The loop variables after [k] pages of the players [db] were received. *)
Definition pages_received (db : list player) (k : nat) (st : loop_state) : Prop :=
  skip st = 20 * Z.of_nat k
  /\ all_players st = firstn (20 * k) db
  /\ (20 * k <= length db)%nat
  /\ successful_requests (console st) = Z.of_nat k
  /\ loop_invariant st.

(** Each answer is either a failure or the slice of [db] that was asked. *)
Definition served_by (db : list player) (net : list reply) : Prop :=
  Forall (fun r => r = failing \/ r = serve db) net.

(** A campaign of 45 players and a run against it in which the second
    request fails once. *)
Definition campaign_45 : list player :=
  map (fun i => make_player ("p" +:+ str (Z.of_nat i)) [9000]) (seq 0 45).

Definition run_45 : list reply :=
  [serve campaign_45; failing; serve campaign_45; serve campaign_45].

#[export] Instance exn_eq_dec : EqDecision exn.
Proof. solve_decision. Defined.

#[export] Instance event_eq_dec : EqDecision event.
Proof. solve_decision. Defined.

(** The runs with a missing required input: no roster, no campaign
    overview, a first page that cannot be fetched, or a first page without
    campaign days. *)
Definition missing_input (w : world) : Prop :=
  users_csv w = []
  \/ overview w = None
  \/ exists r net, network w = r :: net
                   /\ (falsy (r 0 20) = true \/ dates_of_first_page (r 0 20) = []).

Definition failure_message (e : event) : Prop :=
  e = FailedReadUsers \/ e = FailedOverview \/ e = FailedPlayerData \/ e = FailedGameDates.

(** The campaign of the evaluation examples: three days, a target of 10000,
    one player with 12000 and 8000 steps and no count for the third day. *)
Definition three_days : list step_entry :=
  [ {| day := "2024-01-01T00:00:00.000Z"; steps := Some (VInt 12000) |};
    {| day := "2024-01-02T00:00:00.000Z"; steps := Some (VInt 8000) |};
    {| day := "2024-01-03T00:00:00.000Z"; steps := None |} ].

Definition walker : player :=
  {| player_user := Some {| name := Some "walker" |}; player_steps := Some three_days |}.

Definition example_world (date : string) : world :=
  {| argv := ["moonwalk_tracker.py"; "GAME1"];
     users_csv := [("walker", {| roster_id := 7; roster_status := "ok" |})];
     overview := Some {| game_name := "January"; step_target := 10000; total_players := 1 |};
     network := [serve [walker]; serve [walker]];
     today := date |}.

(** The same run without a readable roster, and without overview. *)
Definition world_without_roster : world :=
  {| argv := ["moonwalk_tracker.py"; "GAME1"];
     users_csv := [];
     overview := Some {| game_name := "January"; step_target := 10000; total_players := 1 |};
     network := [serve [walker]; serve [walker]];
     today := "2024-01-03" |}.

Definition world_without_overview : world :=
  {| argv := ["moonwalk_tracker.py"; "GAME1"];
     users_csv := [("walker", {| roster_id := 7; roster_status := "ok" |})];
     overview := None;
     network := [serve [walker]; serve [walker]];
     today := "2024-01-03" |}.

(** Two runs that return the same players: in the first the second page
    fails four times, in the second the second page is empty. *)
Definition run_exhausted : list reply :=
  [page full_page; failing; failing; failing; failing].

Definition run_complete : list reply := [page full_page; page []].

(** The step values [format_steps] produces from integers, and the series
    of the evaluation built from a list of them: with the comparable counts
    the program derives, and with those of the specification. *)
Definition produced (v : StepValue) : Prop :=
  match v with
  | Numeric n => 0 < n < 30000
  | _ => True
  end.

Definition series_with (comparable : StepValue -> Z) (game_dates : list string)
    (vs : list StepValue) : list step_entry :=
  zip_with (fun date v => {| day := date; steps := Some (VInt (comparable v)) |})
           game_dates vs.

(** A player with a username whose only count is a marker. *)
Definition player_with_marker : player :=
  {| player_user := Some {| name := Some "carol" |};
     player_steps := Some [{| day := "2024-01-01"; steps := Some (VStr "30k+") |}] |}.

(** A campaign of one day with a target of 40000 steps, on which the only
    player walked 31000 steps. *)
Definition strider : player :=
  {| player_user := Some {| name := Some "strider" |};
     player_steps := Some [{| day := "2024-01-01T00:00:00.000Z"; steps := Some (VInt 31000) |}] |}.

Definition world_above_cap : world :=
  {| argv := ["moonwalk_tracker.py"; "GAME2"];
     users_csv := [("strider", {| roster_id := 3; roster_status := "ok" |})];
     overview := Some {| game_name := "Marathon"; step_target := 40000; total_players := 1 |};
     network := [serve [strider]; serve [strider]];
     today := "2024-01-02" |}.

(** A series in which a day that is due holds a text instead of a count. *)
Definition series_with_text : list step_entry :=
  [ {| day := "2024-01-01"; steps := Some (VInt 12000) |};
    {| day := "2024-01-02"; steps := Some (VStr "n/a") |} ].

(** An entry with the time of day cut off its date. *)
Definition strip_time (step : step_entry) : step_entry :=
  {| day := split_head "T" (day step); steps := steps step |}.

(** The line the loop of [process_player_data] prints for the player of
    position [i], if any, and the lines for a list of players from position
    [i] on. *)
Definition player_line (i : Z) (p : player) : list event :=
  match process_player p with
  | Ok None => [SkippingNoUsername i]
  | Ok (Some _) => if Z.eqb (i mod 50) 0 then [Processed i] else []
  | Raise e => [ErrorProcessing i e]
  end.

Fixpoint player_lines (i : Z) (players : list player) : list event :=
  match players with
  | [] => []
  | p :: rest => player_line i p ++ player_lines (i + 1) rest
  end.

(** The key [sorted] compares, and the order it puts the players in. *)
Definition id_of (x : string * (Z * list string)) : Z := fst (snd x).

Definition id_le (x y : string * (Z * list string)) : Prop := id_of x <= id_of y.

(** A displayed value the conversion of [display_results] can read. *)
Definition readable (s : string) : Prop :=
  exists z, (if bool_decide (s ≠ "-") then steps_to_int s else Ok 0) = Ok z.

Definition is_user_not_found (e : event) : bool :=
  match e with
  | UserNotFound _ => true
  | _ => false
  end.

(** A report over three campaign days: two players, one of them with a
    value less than there are days, and a roster of three users, one of whom
    did not play. *)
Definition report_players : list player :=
  [walker; make_player "alice" [5000; 20000]].

Definition report_roster : list (string * roster_entry) :=
  [("walker", {| roster_id := 7; roster_status := "ok" |});
   ("ghost", {| roster_id := 5; roster_status := "ok" |});
   ("alice", {| roster_id := 2; roster_status := "ok" |})].

Definition report_dates : list string := map day three_days.

Definition report : list event * exc (option csv) :=
  display_results (process_player_data report_players).1 report_roster report_dates
    10000 "2024-01-03".

(** The same report when one player has a value more than there are days. *)
Definition ragged_players : list player :=
  [walker; make_player "alice" [5000; 20000; 31000; 7]].

Definition ragged_report : list event * exc (option csv) :=
  display_results (process_player_data ragged_players).1 report_roster report_dates
    10000 "2024-01-03".

(** A run in which the campaign days are read from a first player with
    three days, while a roster player of the campaign has four values. *)
Definition world_ragged : world :=
  {| argv := ["moonwalk_tracker.py"; "GAME1"];
     users_csv := report_roster;
     overview := Some {| game_name := "January"; step_target := 10000; total_players := 2 |};
     network := [serve ragged_players; serve ragged_players];
     today := "2024-01-03" |}.

(** Whether a roster user found among the players has more step values than
    there are campaign days. *)
Definition wider_than_header (player_data : gmap string player_entry)
    (user_info : list (string * roster_entry)) (game_dates : list string) : Prop :=
  exists username info e,
    (username, info) ∈ user_info /\ player_data !! username = Some e
    /\ (length game_dates < length (entry_steps e))%nat.

(** The roster users found among the players, with their roster IDs. *)
Definition found_users (player_data : gmap string player_entry)
    (user_info : list (string * roster_entry)) : list (string * Z) :=
  omap (fun x => match player_data !! x.1 with
                 | Some _ => Some (x.1, roster_id x.2)
                 | None => None
                 end) user_info.

(** How often an offset was requested, and what holds of the requests made
    so far at the head of every iteration: the retry counter is the number
    of requests already made at the current offset, no request was made
    beyond it, and no offset was requested more than four times. *)
Definition times_requested (o : Z) (out : list event) : nat :=
  count_occ Z.eq_dec (requested_offsets out) o.

Definition requests_invariant (st : loop_state) : Prop :=
  0 <= retry_count st <= max_retries
  /\ Z.of_nat (times_requested (skip st) (console st)) = retry_count st
  /\ (forall o, skip st < o -> times_requested o (console st) = 0%nat)
  /\ (forall o, (times_requested o (console st) <= 4)%nat).

(** Pages of 25, 20 and 3 players. *)
Definition pages_example : list (list player) :=
  [map (fun i => make_player ("a" +:+ str (Z.of_nat i)) [1]) (seq 0 25);
   map (fun i => make_player ("b" +:+ str (Z.of_nat i)) [1]) (seq 0 20)].

Definition last_page_example : list player :=
  map (fun i => make_player ("c" +:+ str (Z.of_nat i)) [1]) (seq 0 3).

(** * Properties *)

(** ** The primitives, on examples *)

Example str_12000 : str 12000 = "12000". Proof. reflexivity. Qed.
Example str_negative : str (-7) = "-7". Proof. reflexivity. Qed.
Example str_zero : str 0 = "0". Proof. reflexivity. Qed.
Example format_comma_12345 : format_comma 12345 = "12,345". Proof. reflexivity. Qed.
Example format_comma_999 : format_comma 999 = "999". Proof. reflexivity. Qed.
Example format_comma_million : format_comma 1234567 = "1,234,567". Proof. reflexivity. Qed.
Example format_comma_negative : format_comma (-1234) = "-1,234". Proof. reflexivity. Qed.
Example int_leading_zero : int "05" = Ok 5. Proof. reflexivity. Qed.
Example int_empty : int "" = Raise ValueError. Proof. reflexivity. Qed.
Example int_sign_only : int "-" = Raise ValueError. Proof. reflexivity. Qed.
Example replace_no_overlap : replace "aa" "b" "aaa" = "ba". Proof. reflexivity. Qed.
Example replace_marker : replace "k+" "30000" "30k+" = "3030000". Proof. reflexivity. Qed.
Example split_head_T : split_head "T" "2024-01-05T00:00:00" = "2024-01-05".
Proof. reflexivity. Qed.
Example format_steps_30k : format_steps (VStr "30k+") = Ok "30k+". Proof. reflexivity. Qed.
Example format_steps_abc : format_steps (VStr "abc") = Raise TypeError. Proof. reflexivity. Qed.
Example format_steps_7500 : format_steps (VInt 7500) = Ok "7,500". Proof. reflexivity. Qed.

(** ** Strings of digits *)

Section Digits.

Lemma all_digits_string_of_uint d : all_digits (NilEmpty.string_of_uint d) = true.
Proof. induction d; simpl; auto. Qed.

Lemma all_digits_has_char c s :
  is_digit c = false -> all_digits s = true -> has_char c s = false.
Proof.
  intros Hc. induction s as [|a r IH]; simpl; [reflexivity|].
  intros [Ha Hr]%andb_true_iff. rewrite (IH Hr), orb_false_r.
  destruct (Ascii.eqb_spec a c); [congruence | reflexivity].
Qed.

Lemma all_digits_nilzero d : all_digits (NilZero.string_of_uint d) = true.
Proof. destruct d; try apply (all_digits_string_of_uint (_ _)); reflexivity. Qed.

Lemma nilzero_nonempty d : NilZero.string_of_uint d <> EmptyString.
Proof. destruct d; discriminate. Qed.

(** Reading back the digits of a number. *)
Lemma uint_of_string_of_uint d :
  exists d', NilZero.uint_of_string (NilZero.string_of_uint d) = Some d'
             /\ Z.of_uint d' = Z.of_uint d.
Proof.
  destruct (NilZero.usu_gen d) as [H|H]; rewrite H.
  - eauto.
  - exists Decimal.zero. split; [reflexivity|].
    destruct d; try reflexivity;
      (rewrite NilZero.usu in H by discriminate; injection H as <-; reflexivity).
Qed.

End Digits.

(** ** replace and int on numerals *)

Section Numerals.

Lemma replace_absent c old new s :
  has_char c s = false -> replace (String c old) new s = s.
Proof.
  unfold replace. induction s as [|a r IH]; [reflexivity|].
  cbn [has_char replace_from String.prefix].
  intros [Ha Hr]%orb_false_iff.
  destruct (ascii_dec c a) as [->|_].
  - rewrite Ascii.eqb_refl in Ha. discriminate.
  - now rewrite (IH Hr).
Qed.

Lemma replace_comma_group s :
  has_char "," s = false -> replace "," "" (group_thousands s) = s.
Proof.
  unfold replace. induction s as [|a r IH]; [reflexivity|].
  cbn [has_char group_thousands].
  intros [Ha Hr]%orb_false_iff. specialize (IH Hr).
  assert (Hhead : forall x, replace_from "," "" 0 (String a x)
                            = String a (replace_from "," "" 0 x)).
  { intros x. cbn [replace_from String.prefix].
    destruct (ascii_dec "," a) as [<-|_]; [discriminate Ha | reflexivity]. }
  rewrite Hhead. f_equal.
  destruct (Nat.ltb 0 (String.length r) && Nat.eqb (String.length r mod 3) 0); [|exact IH].
  cbn [replace_from String.prefix String.length Nat.pred].
  destruct (ascii_dec "," ",") as [_|Hne]; [|now destruct Hne].
  destruct (group_thousands r); exact IH.
Qed.

Lemma int_digits s :
  all_digits s = true ->
  int s = match NilZero.uint_of_string s with
          | Some d => Ok (1 * Z.of_uint d)
          | None => Raise ValueError
          end.
Proof.
  destruct s as [|a r]; [reflexivity|].
  cbn [all_digits]. intros [Ha _]%andb_true_iff.
  destruct a as [[|] [|] [|] [|] [|] [|] [|] [|]]; try discriminate Ha; reflexivity.
Qed.

(** The conversion of [display_results] undoes the grouping of the digits
    of a number. *)
Lemma steps_to_int_group d :
  steps_to_int (group_thousands (NilZero.string_of_uint d)) = Ok (Z.of_uint d).
Proof.
  unfold steps_to_int.
  pose proof (all_digits_nilzero d) as Hd.
  rewrite replace_comma_group by (now apply all_digits_has_char).
  rewrite (replace_absent "k" "+") by (now apply all_digits_has_char).
  rewrite (replace_absent "-" "") by (now apply all_digits_has_char).
  rewrite int_digits by exact Hd.
  destruct (uint_of_string_of_uint d) as (d' & -> & Hd').
  f_equal. lia.
Qed.

Lemma of_uint_to_uint p : Z.of_uint (Pos.to_uint p) = Z.pos p.
Proof. unfold Z.of_uint. now rewrite DecimalPos.Unsigned.of_to. Qed.

Lemma steps_to_int_format_comma n :
  0 <= n -> steps_to_int (format_comma n) = Ok n.
Proof.
  intros Hn. destruct n as [|p|p]; [reflexivity| |lia].
  unfold format_comma, Z.to_int. rewrite steps_to_int_group.
  now rewrite of_uint_to_uint.
Qed.

(** [int] reads back what [str] writes. *)
Lemma int_str z : int (str z) = Ok z.
Proof.
  destruct z as [|p|p]; [reflexivity| |].
  - unfold str, Z.to_int, NilZero.string_of_int.
    rewrite int_digits by apply all_digits_nilzero.
    destruct (uint_of_string_of_uint (Pos.to_uint p)) as (d' & -> & Hd').
    rewrite Hd', of_uint_to_uint. f_equal; lia.
  - unfold str, Z.to_int, NilZero.string_of_int. cbn [int].
    destruct (uint_of_string_of_uint (Pos.to_uint p)) as (d' & -> & Hd').
    rewrite Hd', of_uint_to_uint. f_equal; lia.
Qed.

Lemma str_inj z z' : str z = str z' -> z = z'.
Proof.
  intros H. pose proof (int_str z) as Hz. rewrite H, int_str in Hz. congruence.
Qed.

End Numerals.

(** ** format_steps and the conversion back *)

Section Normalization.

Lemma format_steps_numeric n :
  0 < n < 30000 -> format_steps (VInt n) = Ok (format_comma n).
Proof.
  intros [Hlo Hhi]. cbn [format_steps]. unfold format_number. cbn [isna eq_zero orb ge].
  destruct (Z.eqb_spec n 0); [lia|].
  destruct (Z.leb_spec 30000 n); [lia|]. reflexivity.
Qed.

Lemma format_steps_capped n :
  30000 <= n -> format_steps (VInt n) = Ok "30k+".
Proof.
  intros Hn. cbn [format_steps]. unfold format_number. cbn [isna eq_zero orb ge].
  destruct (Z.eqb_spec n 0); [lia|].
  destruct (Z.leb_spec 30000 n); [reflexivity|lia].
Qed.

Lemma format_steps_marker s :
  contains "k+" s = true -> format_steps (VStr s) = Ok s.
Proof. intros H. cbn [format_steps]. now rewrite H. Qed.

Lemma format_steps_other_text s :
  contains "k+" s = false -> format_steps (VStr s) = Raise TypeError.
Proof. intros H. cbn [format_steps]. now rewrite H. Qed.

(** The numeral of a positive count is neither the placeholder nor a
    marker: the three kinds of displayed values do not overlap. *)
Lemma format_comma_not_placeholder n : 0 < n -> format_comma n <> "-".
Proof.
  intros Hn H. pose proof (steps_to_int_format_comma n ltac:(lia)) as Hr.
  rewrite H in Hr. vm_compute in Hr. injection Hr as Hr. lia.
Qed.

Lemma comparable_steps_numeral n :
  0 < n -> comparable_steps [format_comma n] 0 = Ok n.
Proof.
  intros Hn. unfold comparable_steps. cbn [lookup list_lookup].
  rewrite bool_decide_eq_true_2 by (now apply format_comma_not_placeholder).
  apply steps_to_int_format_comma. lia.
Qed.

(** C10.  For every integer [n] with [0 < n < 30000], [format_steps] shows
    [n] as its comma-grouped numeral, and the conversion [display_results]
    applies before the evaluation (separators stripped, then [int]) gives
    back exactly [n]. *)
Theorem display_round_trip (n : Z) :
  0 < n < 30000 ->
  exists s, format_steps (VInt n) = Ok s
            /\ steps_to_int s = Ok n
            /\ comparable_steps [s] 0 = Ok n.
Proof.
  intros Hn. exists (format_comma n). split; [|split].
  - now apply format_steps_numeric.
  - apply steps_to_int_format_comma. lia.
  - apply comparable_steps_numeral. lia.
Qed.

Lemma display_round_trip_witness :
  0 < 12345 < 30000 /\
  exists s, format_steps (VInt 12345) = Ok s
            /\ steps_to_int s = Ok 12345
            /\ comparable_steps [s] 0 = Ok 12345.
Proof. split; [lia | apply (display_round_trip 12345); lia]. Defined.

End Normalization.

Section NormalizationClaims.

(** C2, as stated, fails: a value that is not a number and holds no marker
    is not turned into the placeholder of a missing value, [format_steps]
    raises on it. *)
Lemma format_steps_text_not_missing :
  format_steps (VStr "abc") = Raise TypeError
  /\ format_steps (VStr "abc") <> Ok (display Missing).
Proof. split; [reflexivity | discriminate]. Qed.

(** C2, amended.  [format_steps] maps an integer [n] with [0 < n < 30000] to
    its comma-grouped numeral (Numeric), an integer [n >= 30000] to ['30k+']
    (Capped), and an absent count, a zero and a null to ['-'] (Missing); the
    numeral is neither ['-'] nor a marker.  A string that contains ['k+'],
    such as ['30k+'], is returned as it is; on any other string
    [format_steps] raises [TypeError]. *)
Theorem format_steps_normalization :
  (forall n, 0 < n < 30000 ->
     format_steps (VInt n) = Ok (display (Numeric n))
     /\ display (Numeric n) <> display Missing
     /\ contains "k+" (display (Numeric n)) = false)
  /\ (forall n, 30000 <= n -> format_steps (VInt n) = Ok (display Capped))
  /\ format_steps (VStr "30k+") = Ok (display Capped)
  /\ (forall d, format_steps (get_steps {| day := d; steps := None |}) = Ok (display Missing))
  /\ format_steps (VInt 0) = Ok (display Missing)
  /\ format_steps VNone = Ok (display Missing)
  /\ (forall s, contains "k+" s = true -> format_steps (VStr s) = Ok s)
  /\ (forall s, contains "k+" s = false -> format_steps (VStr s) = Raise TypeError).
Proof.
  repeat split; try reflexivity.
  - now apply format_steps_numeric.
  - apply format_comma_not_placeholder. lia.
  - cbn [display]. destruct n as [|p|p]; try lia.
    unfold format_comma, Z.to_int.
    assert (Hk : forall s, has_char "k" s = false -> contains "k+" s = false).
    { induction s as [|a r IH]; [reflexivity|].
      cbn [has_char contains String.prefix]. intros [Ha Hr]%orb_false_iff.
      rewrite (IH Hr). destruct (ascii_dec "k" a) as [<-|_]; [discriminate Ha|reflexivity]. }
    apply Hk.
    assert (Hg : forall s, has_char "k" s = false -> has_char "k" (group_thousands s) = false).
    { induction s as [|a r IH]; [reflexivity|].
      cbn [has_char group_thousands]. intros [Ha Hr]%orb_false_iff.
      rewrite Ha. cbn [orb].
      destruct (Nat.ltb 0 (String.length r) && Nat.eqb (String.length r mod 3) 0);
        cbn [has_char Ascii.eqb Bool.eqb orb]; auto. }
    apply Hg, all_digits_has_char; [reflexivity | apply all_digits_nilzero].
  - now apply format_steps_capped.
  - apply format_steps_marker.
  - apply format_steps_other_text.
Qed.

Lemma format_steps_normalization_witness :
  format_steps (VInt 7500) = Ok "7,500"
  /\ format_steps (VInt 45000) = Ok "30k+"
  /\ format_steps (VStr "31k+") = Ok "31k+".
Proof.
  destruct format_steps_normalization as (Hnum & Hcap & _ & _ & _ & _ & Hmark & _).
  split; [|split].
  - apply (Hnum 7500). lia.
  - apply (Hcap 45000). lia.
  - apply (Hmark "31k+"). reflexivity.
Defined.

(** C1 at the failing input: a campaign of one day, already due, with a
    step target of 40000, and a player who walked 31000 steps that day.
    [format_steps] shows the count as the marker ['30k+'] (Capped).  The
    conversion of [display_results] reads the marker as 3030000, not as the
    cap 30000, so the day is counted as completed and the status is
    ['Complete'], although the comparable count of the claim, 30000, is
    below the target. *)
Theorem capped_day_read_as_3030000 :
  format_steps (VInt 31000) = Ok (display Capped)
  /\ steps_to_int (display Capped) = Ok 3030000
  /\ spec_comparable Capped = 30000
  /\ spec_day_completed Capped 40000 = false
  /\ player_row 3 "strider" [display Capped] ["2024-01-01"] 40000 "2024-01-02"
     = Ok {| row_id := 3; row_username := "strider";
             row_steps := ["30k+"]; row_status := "Complete" |}
  /\ (rows <$> (main world_above_cap ≫= saved))
     = Some [ {| row_id := 3; row_username := "strider";
                 row_steps := ["30k+"]; row_status := "Complete" |} ].
Proof. repeat split; vm_compute; reflexivity. Qed.

End NormalizationClaims.

(** ** check_task_completion *)

Section Completion.

Lemma comparable_steps_display v :
  (forall n, v = Numeric n -> 0 < n) ->
  comparable_steps [display v] 0 = Ok (code_comparable v).
Proof.
  intros Hv. destruct v as [| |n]; [reflexivity|reflexivity|].
  apply comparable_steps_numeral. now apply Hv.
Qed.

Lemma len_cons {A} (x : A) l : len (x :: l) = 1 + len l.
Proof. unfold len. cbn [length]. lia. Qed.

Lemma len_nonneg {A} (l : list A) : 0 <= len l.
Proof. unfold len. lia. Qed.

(** The loop counts what the filters count. *)
Lemma count_days_filters sd t d c r :
  numeric_when_due d sd ->
  count_days sd t d c r = Ok (c + completed_days_of sd t d, r + required_days_of sd d).
Proof.
  unfold completed_days_of, required_days_of.
  revert c r. induction sd as [|step rest IH]; intros c r Hnum.
  - cbn. unfold len. cbn [length]. f_equal. f_equal; lia.
  - apply Forall_cons in Hnum as [Hstep Hrest].
    cbn [count_days List.filter]. fold (due d step).
    destruct (due d step) eqn:Hdue; cbn [andb].
    + specialize (Hstep eq_refl).
      destruct (get_steps step) as [|n|s] eqn:Hg; try discriminate Hstep.
      assert (Hm : met t step = Z.leb t n) by (unfold met; now rewrite Hg).
      rewrite Hm. cbn [ge mbind exc_bind].
      rewrite IH by exact Hrest.
      destruct (Z.leb t n); rewrite !len_cons; f_equal; f_equal; lia.
    + now rewrite IH.
Qed.


Lemma count_days_bounds sd t d c r c' r' :
  count_days sd t d c r = Ok (c', r') -> c <= c' /\ c' - c <= r' - r.
Proof.
  revert c r. induction sd as [|step rest IH]; intros c r.
  - cbn. intros [= <- <-]. lia.
  - cbn [count_days]. destruct (str_le (step_date step) d).
    + destruct (get_steps step) as [|n|s]; cbn [ge mbind exc_bind]; try discriminate.
      destruct (Z.leb t n); intros H%IH; lia.
    + apply IH.
Qed.

End Completion.

Section CompletionClaims.

(** A numeral holds digits and possibly a sign, nothing else. *)
Lemma has_char_str c z :
  is_digit c = false -> c <> "-"%char -> has_char c (str z) = false.
Proof.
  intros Hc Hm. unfold str, Z.to_int.
  destruct z as [|p|p]; cbn [NilZero.string_of_int].
  - apply all_digits_has_char; [exact Hc | reflexivity].
  - apply all_digits_has_char; [exact Hc | apply all_digits_nilzero].
  - cbn [has_char]. destruct (Ascii.eqb_spec "-" c) as [<-|_]; [now destruct Hm|].
    apply all_digits_has_char; [exact Hc | apply all_digits_nilzero].
Qed.

(** Two texts cut at a separator that occurs in neither head. *)
Lemma append_separator_inj sep a b x y :
  has_char sep a = false -> has_char sep b = false ->
  a +:+ String sep x = b +:+ String sep y -> a = b /\ x = y.
Proof.
  revert b. induction a as [|c a IH]; intros [|c' b]; cbn [String.append has_char].
  - intros _ _ [= ->]. now split.
  - intros _ [Hc _]%orb_false_iff [= <- _]. rewrite Ascii.eqb_refl in Hc. discriminate.
  - intros [Hc _]%orb_false_iff _ [= -> _]. rewrite Ascii.eqb_refl in Hc. discriminate.
  - intros [_ Ha]%orb_false_iff [_ Hb]%orb_false_iff [= -> H].
    destruct (IH b Ha Hb H) as [-> ->]. now split.
Qed.

Lemma failed_text_inj c r c' r' :
  failed_text c r = failed_text c' r' -> c = c' /\ r = r'.
Proof.
  unfold failed_text. cbn [String.append]. intros [= H].
  apply append_separator_inj in H as [Hc H]; try (now apply has_char_str).
  apply append_separator_inj in H as [Hr _]; try (now apply has_char_str).
  split; now apply str_inj.
Qed.

(** The series [display_results] hands to the evaluation holds integers
    only. *)
Lemma evaluation_input_numeric steps i dates input d :
  evaluation_input steps i dates = Ok input -> numeric_when_due d input.
Proof.
  revert i input. induction dates as [|date rest IH]; intros i input; cbn [evaluation_input].
  - intros [= <-]. constructor.
  - destruct (comparable_steps steps i) as [n|e]; cbn [mbind exc_bind]; [|discriminate].
    destruct (evaluation_input steps (S i) rest) as [l|e] eqn:Hrest;
      cbn [mbind exc_bind]; [|discriminate].
    intros [= <-]. constructor; [reflexivity | now apply (IH (S i))].
Qed.

(** The conversion of [display_results] on a series of displayed values. *)
Lemma comparable_steps_lookup steps i v :
  steps !! i = Some (display v) -> produced v ->
  comparable_steps steps i = Ok (code_comparable v).
Proof.
  intros Hi Hv. unfold comparable_steps. rewrite Hi.
  destruct v as [| |n]; [reflexivity|reflexivity|]. cbn [produced] in Hv.
  cbn [display code_comparable].
  rewrite bool_decide_eq_true_2 by (apply format_comma_not_placeholder; lia).
  apply steps_to_int_format_comma. lia.
Qed.

Lemma evaluation_input_display_from before vs game_dates :
  Forall produced vs -> length vs = length game_dates ->
  evaluation_input (before ++ map display vs) (length before) game_dates
  = Ok (series_with code_comparable game_dates vs).
Proof.
  intros Hvs. revert before game_dates.
  induction Hvs as [|v vs Hv _ IH]; intros before [|date rest] Hlen;
    try discriminate Hlen; [reflexivity|].
  cbn [map evaluation_input series_with zip_with].
  rewrite (comparable_steps_lookup _ _ v); [|apply list_lookup_middle; reflexivity|exact Hv].
  cbn [mbind exc_bind].
  replace (before ++ display v :: map display vs)
    with ((before ++ [display v]) ++ map display vs) by (now rewrite <- app_assoc).
  replace (S (length before)) with (length (before ++ [display v]))
    by (rewrite length_app; cbn [length]; lia).
  rewrite IH by (injection Hlen as Hlen; exact Hlen). reflexivity.
Qed.

Lemma evaluation_input_display vs game_dates :
  Forall produced vs -> length vs = length game_dates ->
  evaluation_input (map display vs) 0 game_dates
  = Ok (series_with code_comparable game_dates vs).
Proof. intros Hvs Hlen. now apply (evaluation_input_display_from [] vs game_dates). Qed.

(** As long as the step target does not exceed the cap, the evaluation of
    the program and the evaluation on the comparable counts of the
    specification agree; they can only differ on a Capped day with a target
    above 30000. *)
Lemma evaluation_agrees_below_cap vs game_dates step_target current_date :
  step_target <= 30000 ->
  check_task_completion (series_with code_comparable game_dates vs) step_target current_date
  = check_task_completion (series_with spec_comparable game_dates vs) step_target current_date.
Proof.
  intros Ht. unfold check_task_completion.
  assert (H : forall c r,
             count_days (series_with code_comparable game_dates vs) step_target current_date c r
             = count_days (series_with spec_comparable game_dates vs) step_target current_date c r).
  { revert vs. induction game_dates as [|date rest IH]; intros vs c r; [reflexivity|].
    destruct vs as [|v vs]; [reflexivity|].
    cbn [series_with zip_with count_days]. unfold step_date, get_steps.
    cbn [day steps default from_option ge mbind exc_bind].
    fold (series_with code_comparable rest vs). fold (series_with spec_comparable rest vs).
    destruct (str_le _ current_date); [|apply IH].
    assert (Hmet : Z.leb step_target (code_comparable v)
                   = Z.leb step_target (spec_comparable v)).
    { destruct v; cbn [code_comparable spec_comparable]; try reflexivity.
      destruct (Z.leb_spec step_target 3030000), (Z.leb_spec step_target 30000);
        reflexivity || lia. }
    unfold id. cbn [ge mbind exc_bind]. rewrite Hmet. apply IH. }
  now rewrite H.
Qed.

(** The row of a player whose displayed series has one produced value per
    campaign day: with a target up to the cap, its status is the one the
    comparable counts of the specification give. *)
Lemma player_row_below_cap ident username vs game_dates step_target current_date :
  Forall produced vs -> length vs = length game_dates -> step_target <= 30000 ->
  player_row ident username (map display vs) game_dates step_target current_date
  = (completion ← check_task_completion (series_with spec_comparable game_dates vs)
                    step_target current_date;
     Ok {| row_id := ident; row_username := username;
           row_steps := map display vs; row_status := completion |}).
Proof.
  intros Hvs Hlen Ht. unfold player_row, pad.
  rewrite length_map, Hlen, Nat.sub_diag. cbn [replicate]. rewrite app_nil_r.
  rewrite evaluation_input_display by assumption. cbn [mbind exc_bind].
  now rewrite evaluation_agrees_below_cap.
Qed.


(** C6.  Whenever the evaluation returns the text of a partial status,
    ['Failed(c/r)'], the count [c] is below [r]. *)
Theorem partial_status_below_required (steps_data : list step_entry) (step_target : Z)
    (current_date : string) (c r : Z) :
  check_task_completion steps_data step_target current_date = Ok (failed_text c r) ->
  0 <= c < r.
Proof.
  unfold check_task_completion.
  destruct (count_days steps_data step_target current_date 0 0) as [[c0 r0]|e] eqn:Hcount;
    cbn [mbind exc_bind]; [|discriminate].
  apply count_days_bounds in Hcount.
  destruct (Z.eqb_spec r0 0); [discriminate|].
  destruct (Z.eqb_spec c0 r0); [discriminate|].
  intros H. assert (H' : failed_text c0 r0 = failed_text c r) by congruence.
  apply failed_text_inj in H' as [<- <-]. lia.
Qed.

End CompletionClaims.

(** ** process_player_data: one player *)

Section OnePlayer.

Lemma values_are_ints (l : list value) :
  Forall (fun v => is_int v = true) l -> exists counts, l = map VInt counts.
Proof.
  induction 1 as [|v l Hv _ [counts ->]]; [now exists []|].
  destruct v as [|n|s]; try discriminate Hv. now exists (n :: counts).
Qed.

Lemma format_steps_int n : exists s, format_steps (VInt n) = Ok s.
Proof.
  cbn [format_steps]. unfold format_number. cbn [isna eq_zero orb ge mbind exc_bind to_int].
  destruct (Z.eqb n 0); [eauto|]. destruct (Z.leb 30000 n); eauto.
Qed.

Lemma format_all_ints sd :
  Forall (fun v => is_int v = true) (map get_steps sd) -> exists l, format_all sd = Ok l.
Proof.
  induction sd as [|step rest IH]; cbn [map format_all]; [eauto|].
  intros [Hv Hrest]%Forall_cons. destruct (IH Hrest) as [l ->].
  destruct (get_steps step) as [|n|s]; try discriminate Hv.
  destruct (format_steps_int n) as [s ->]. cbn. eauto.
Qed.

Lemma count_positive_ints sd :
  Forall (fun v => is_int v = true) (map get_steps sd) -> exists n, count_positive sd = Ok n.
Proof.
  induction sd as [|step rest IH]; cbn [map count_positive]; [eauto|].
  intros [Hv Hrest]%Forall_cons. destruct (IH Hrest) as [n ->].
  destruct (get_steps step) as [|z|s]; try discriminate Hv. cbn. eauto.
Qed.

(** The count of completed days only succeeds on integers: the comparison
    with [0] raises on anything else. *)
Lemma count_positive_ok sd n :
  count_positive sd = Ok n -> Forall (fun v => is_int v = true) (map get_steps sd).
Proof.
  revert n. induction sd as [|step rest IH]; intros n; cbn [map count_positive];
    [constructor|].
  destruct (get_steps step) as [|z|s]; cbn [gt mbind exc_bind]; try discriminate.
  destruct (count_positive rest) as [m|e]; [|discriminate].
  intros _. constructor; [reflexivity | now apply (IH m)].
Qed.

Lemma max_from_ints m l :
  max_from (VInt m) (map VInt l) = Ok (VInt (foldl Z.max m l)).
Proof.
  revert m. induction l as [|x l IH]; intros m; [reflexivity|].
  cbn [map max_from gt mbind exc_bind foldl].
  destruct (Z.ltb_spec m x).
  - rewrite IH. do 3 f_equal. lia.
  - rewrite IH. do 3 f_equal. lia.
Qed.

Lemma foldl_max_spec m l :
  In (foldl Z.max m l) (m :: l) /\ Forall (fun x => x <= foldl Z.max m l) (m :: l).
Proof.
  revert m. induction l as [|x l IH]; intros m; cbn [foldl].
  - split; [now left | repeat constructor; lia].
  - destruct (IH (Z.max m x)) as [Hin Hall].
    apply Forall_cons in Hall as [Hmx Hl]. split.
    + destruct Hin as [Hin|Hin]; [|now right; right].
      rewrite <- Hin. destruct (Z.max_spec m x) as [[_ ->]|[_ ->]]; [right|]; now left.
    + repeat constructor; try lia. exact Hl.
Qed.

Lemma max_default_ints counts :
  exists m, max_default (map VInt counts) (VInt 0) = Ok (VInt m) /\ maximum_of counts m.
Proof.
  destruct counts as [|x l]; [now exists 0|].
  exists (foldl Z.max x l). cbn [map max_default]. split; [apply max_from_ints|].
  apply foldl_max_spec.
Qed.

Lemma spec_highest_steps_maximum counts m :
  Forall (fun x => 0 <= x < 30000) counts -> maximum_of counts m ->
  m = spec_highest_steps counts.
Proof.
  unfold spec_highest_steps. intros Hrange Hmax.
  assert (Hub : forall l, Forall (fun x => x <= m) l -> 0 <= m ->
                foldr Z.max 0 (List.filter (fun n => Z.ltb 0 n && Z.ltb n 30000) l) <= m).
  { induction 1 as [|x l Hx _ IH]; intros Hm; cbn [List.filter foldr]; [lia|].
    destruct (Z.ltb 0 x && Z.ltb x 30000); cbn [foldr]; specialize (IH Hm); lia. }
  assert (Hlb : forall l, Forall (fun x => 0 <= x < 30000) l -> In m l ->
                m <= foldr Z.max 0 (List.filter (fun n => Z.ltb 0 n && Z.ltb n 30000) l)).
  { induction 1 as [|x l Hx _ IH]; intros Hin; [destruct Hin|].
    assert (Hnn : forall l', 0 <= foldr Z.max 0 l').
    { induction l' as [|y l' IH']; cbn [foldr]; lia. }
    cbn [List.filter]. destruct Hin as [->|Hin].
    - destruct (Z.ltb_spec 0 m); cbn [andb].
      + destruct (Z.ltb_spec m 30000); [cbn [foldr]; lia | lia].
      + specialize (Hnn (List.filter (fun n => Z.ltb 0 n && Z.ltb n 30000) l)). lia.
    - specialize (IH Hin).
      destruct (Z.ltb 0 x && Z.ltb x 30000); cbn [foldr]; lia. }
  destruct counts as [|x l]; [exact Hmax|].
  destruct Hmax as [Hin Hall].
  assert (0 <= m).
  { apply Forall_cons in Hrange as [Hx _]. apply Forall_cons in Hall as [Hxm _]. lia. }
  apply Z.le_antisymm; [now apply Hlb | now apply Hub].
Qed.

End OnePlayer.

Section OnePlayerOutcome.

Lemma process_player_nameless p :
  username_of p = "" -> process_player p = Ok None.
Proof.
  unfold process_player, username_of. intros ->. reflexivity.
Qed.

Lemma process_player_integer p :
  username_of p <> "" -> integer_counts p ->
  exists e, process_player p = Ok (Some (username_of p, e)).
Proof.
  unfold process_player, integer_counts, raw_counts. fold (username_of p).
  intros Hname Hints. rewrite bool_decide_eq_false_2 by exact Hname.
  destruct (format_all_ints _ Hints) as [l ->].
  destruct (count_positive_ints _ Hints) as [n ->].
  destruct (values_are_ints _ Hints) as [counts ->].
  destruct (max_default_ints counts) as (m & -> & _).
  cbn. eauto.
Qed.

(** What is stored for a player comes from integer counts, and its
    [highest_steps] is their maximum. *)
Lemma accepted_inv p u e :
  accepted p = Some (u, e) ->
  u = username_of p /\ u <> ""
  /\ exists counts m, raw_counts p = map VInt counts
                      /\ highest_steps e = VInt m /\ maximum_of counts m.
Proof.
  unfold accepted, process_player, raw_counts. fold (username_of p).
  case_bool_decide as Hname; [discriminate|].
  destruct (format_all _) as [l|?]; cbn [mbind exc_bind]; [|discriminate].
  destruct (count_positive _) as [n|?] eqn:Hcount; cbn [mbind exc_bind]; [|discriminate].
  apply count_positive_ok, values_are_ints in Hcount as [counts Hcounts].
  rewrite Hcounts.
  destruct (max_default_ints counts) as (m & -> & Hmax). cbn [mbind exc_bind].
  intros [= <- <-]. cbn [highest_steps]. eauto 10.
Qed.

Lemma accepted_integer p :
  username_of p <> "" -> integer_counts p ->
  exists e, accepted p = Some (username_of p, e).
Proof.
  intros Hname Hints. destruct (process_player_integer p Hname Hints) as [e He].
  exists e. unfold accepted. now rewrite He.
Qed.

Lemma accepted_nameless p : username_of p = "" -> accepted p = None.
Proof. intros H. unfold accepted. now rewrite process_player_nameless. Qed.

End OnePlayerOutcome.

(** ** process_player_data: the batch *)

Section Batch.

Implicit Types (players : list player) (acc : gmap string player_entry).

Lemma process_players_fst i players acc out :
  (process_players i players acc out).1 = foldl store acc (omap accepted players).
Proof.
  revert i acc out. induction players as [|p rest IH]; intros i acc out; [reflexivity|].
  assert (Hcons : omap accepted (p :: rest)
                  = match accepted p with
                    | Some x => x :: omap accepted rest
                    | None => omap accepted rest
                    end) by reflexivity.
  rewrite Hcons. cbn [process_players].
  assert (Hacc : accepted p = match process_player p with
                              | Ok (Some x) => Some x
                              | _ => None
                              end) by reflexivity.
  rewrite Hacc.
  destruct (process_player p) as [[[u e]|]|err]; cbn [foldl]; apply IH.
Qed.

Lemma foldl_store_list_to_map (l : list (string * player_entry)) :
  foldl store ∅ l = list_to_map (reverse l).
Proof.
  induction l as [|x l IH] using rev_ind; [reflexivity|].
  rewrite foldl_app, reverse_snoc. cbn [foldl]. rewrite IH. now destruct x.
Qed.

Lemma process_player_data_fst players :
  (process_player_data players).1 = list_to_map (reverse (omap accepted players)).
Proof.
  unfold process_player_data.
  pose proof (process_players_fst 1 players ∅ [StartProcessing (len players)]) as H.
  destruct (process_players _ _ _ _) as [m out]. cbn [fst] in *.
  now rewrite H, foldl_store_list_to_map.
Qed.

Lemma process_player_data_lookup players u e :
  (process_player_data players).1 !! u = Some e ->
  exists p, p ∈ players /\ accepted p = Some (u, e).
Proof.
  rewrite process_player_data_fst. intros H%elem_of_list_to_map_2.
  apply elem_of_reverse, list_elem_of_omap in H. exact H.
Qed.

Lemma process_player_data_is_Some players u :
  is_Some ((process_player_data players).1 !! u) <->
  exists p e, p ∈ players /\ accepted p = Some (u, e).
Proof.
  split.
  - intros [e He]. apply process_player_data_lookup in He as (p & Hp & Ha). eauto.
  - intros (p & e & Hp & Ha). rewrite process_player_data_fst.
    apply not_eq_None_Some. rewrite <- not_elem_of_list_to_map. intros Hnot. apply Hnot.
    apply list_elem_of_fmap. exists (u, e). split; [reflexivity|].
    apply elem_of_reverse, list_elem_of_omap. eauto.
Qed.

End Batch.

Section BatchLog.

Lemma process_players_app i (l1 l2 : list player) acc out :
  process_players i (l1 ++ l2) acc out =
  let '(acc', out') := process_players i l1 acc out in
  process_players (i + len l1) l2 acc' out'.
Proof.
  revert i acc out. induction l1 as [|p l1 IH]; intros i acc out.
  - cbn [app process_players]. unfold len. cbn [length]. now rewrite Z.add_0_r.
  - cbn [app process_players]. rewrite len_cons.
    destruct (process_player p) as [[[u e]|]|err]; rewrite IH;
      destruct (process_players _ l1 _ _) as [acc' out']; f_equal; lia.
Qed.

Lemma process_players_log i (players : list player) acc out ev :
  ev ∈ out -> ev ∈ (process_players i players acc out).2.
Proof.
  revert i acc out. induction players as [|p rest IH]; intros i acc out Hev; [exact Hev|].
  cbn [process_players].
  destruct (process_player p) as [[[u e]|]|err]; apply IH.
  - destruct (Z.eqb _ _); [apply elem_of_app; now left | exact Hev].
  - apply elem_of_app. now left.
  - apply elem_of_app. now left.
Qed.

(** The skip of a player without username is reported with its position,
    and the loop goes on with the players that follow. *)
Lemma process_player_data_skip_logged before p after :
  username_of p = "" ->
  SkippingNoUsername (1 + len before) ∈ (process_player_data (before ++ p :: after)).2.
Proof.
  intros Hp. unfold process_player_data. rewrite process_players_app.
  destruct (process_players 1 before _ _) as [acc' out'].
  cbn [process_players]. rewrite (process_player_nameless p Hp).
  pose proof (process_players_log (1 + len before + 1) after acc'
                (out' ++ [SkippingNoUsername (1 + len before)])
                (SkippingNoUsername (1 + len before))) as H.
  destruct (process_players _ after _ _) as [m out]. cbn [snd] in *.
  apply elem_of_app. left. apply H. apply elem_of_app. right. now apply list_elem_of_singleton.
Qed.

Lemma omap_accepted_integer (l : list player) :
  Forall (fun p => username_of p <> "") l -> Forall integer_counts l ->
  (omap accepted l).*1 = map username_of l.
Proof.
  induction l as [|p l IH]; [reflexivity|].
  intros [Hn Hns]%Forall_cons [Hi His]%Forall_cons.
  destruct (accepted_integer p Hn Hi) as [e He].
  assert (Hcons : omap accepted (p :: l) = (username_of p, e) :: omap accepted l).
  { change (omap accepted (p :: l))
      with (match accepted p with
            | Some x => x :: omap accepted l
            | None => omap accepted l
            end). now rewrite He. }
  rewrite Hcons. cbn [fmap list_fmap map fst]. now rewrite <- IH.
Qed.

End BatchLog.

Section AggregationClaims.

(** C3, as stated, fails: a day of 30000 steps or more (Capped) is not left
    out of [highest_steps].  For the counts 45000 and 100 the program stores
    45000, the maximum over the Numeric entries is 100. *)
Lemma highest_steps_counts_capped_day :
  exists e,
    (process_player_data [make_player "walker" [45000; 100]]).1 !! "walker" = Some e
    /\ highest_steps e = VInt 45000
    /\ spec_highest_steps [45000; 100] = 100
    /\ highest_steps e <> VInt (spec_highest_steps [45000; 100]).
Proof.
  eexists. split; [vm_compute; reflexivity|].
  split; [reflexivity|]. split; [reflexivity|]. discriminate.
Qed.

(** C3, amended.  For every aggregated player, [highest_steps] is the
    maximum of the raw step counts of the player's days, an absent count
    standing for 0 and a count of 30000 or more entering with its own
    magnitude; it is 0 when the player has no step entries.  When every
    count lies between 0 and 29999 this is the maximum over the Numeric
    entries. *)
Theorem highest_steps_is_raw_maximum (players : list player) (u : string)
    (e : player_entry) :
  (process_player_data players).1 !! u = Some e ->
  exists p counts m,
    p ∈ players /\ username_of p = u
    /\ raw_counts p = map VInt counts
    /\ highest_steps e = VInt m
    /\ maximum_of counts m
    /\ (Forall (fun x => 0 <= x < 30000) counts -> m = spec_highest_steps counts).
Proof.
  intros (p & Hp & Ha)%process_player_data_lookup.
  apply accepted_inv in Ha as (-> & _ & counts & m & Hc & Hm & Hmax).
  exists p, counts, m. repeat split; try assumption.
  intros Hrange. now apply spec_highest_steps_maximum.
Qed.

Lemma highest_steps_is_raw_maximum_witness :
  let e := {| entry_steps := ["30k+"; "100"]; total_completed := 2;
              highest_steps := VInt 45000 |} in
  (process_player_data [make_player "walker" [45000; 100]]).1 !! "walker" = Some e
  /\ exists p counts m,
       p ∈ [make_player "walker" [45000; 100]] /\ username_of p = "walker"
       /\ raw_counts p = map VInt counts
       /\ highest_steps e = VInt m
       /\ maximum_of counts m
       /\ (Forall (fun x => 0 <= x < 30000) counts -> m = spec_highest_steps counts).
Proof.
  intros e.
  assert (H : (process_player_data [make_player "walker" [45000; 100]]).1 !! "walker"
              = Some e) by (vm_compute; reflexivity).
  split; [exact H | exact (highest_steps_is_raw_maximum _ _ _ H)].
Defined.

End AggregationClaims.

Section AggregationResilience.

(** C8, as stated, fails: a record with a username is not always stored.
    A record whose processing raises is dropped by the [except] clause; here
    the only record of the batch is named ['bob'] and the output is empty. *)
Lemma named_record_not_stored :
  username_of player_with_text = "bob"
  /\ (process_player_data [player_with_text]).1 !! "bob" = None
  /\ size (process_player_data [player_with_text]).1 = 0%nat
  /\ (process_player_data [player_with_text]).2
     = [StartProcessing 1; ErrorProcessing 1 TypeError; DoneProcessing 0].
Proof. repeat split; vm_compute; reflexivity. Qed.

(** A record whose count is a marker is dropped as well: [format_steps]
    accepts the marker, the comparison with [0] that counts the completed
    days raises on it. *)
Example marker_record_not_stored :
  format_all (default [] (player_steps player_with_marker)) = Ok ["30k+"]
  /\ process_player player_with_marker = Raise TypeError
  /\ (process_player_data [player_with_marker]).1 !! "carol" = None.
Proof. repeat split; vm_compute; reflexivity. Qed.

Lemma stored_usernames (players : list player) :
  Forall integer_counts players ->
  forall u, is_Some ((process_player_data players).1 !! u) <->
            u <> "" /\ exists p, p ∈ players /\ username_of p = u.
Proof.
  intros Hints u. rewrite process_player_data_is_Some. split.
  - intros (p & e & Hp & Ha). apply accepted_inv in Ha as (-> & Hne & _). eauto.
  - intros (Hne & p & Hp & <-).
    rewrite Forall_forall in Hints.
    destruct (accepted_integer p Hne (Hints p Hp)) as [e He]. eauto.
Qed.

(** C8, amended.  A record whose username is absent or empty is skipped, and
    so is a record whose processing raises; neither aborts the batch.  The
    output holds exactly one entry per username of a stored record; when all
    step counts are integers these are exactly the non-empty usernames of
    the batch.  In particular, for a batch of 100 records with integer
    counts and distinct usernames, the 57th of which has no username, the
    output has 99 entries, the skip of record 57 is reported and the records
    after it are stored. *)
Theorem aggregation_skips_records_without_username (players : list player) :
  (forall u, is_Some ((process_player_data players).1 !! u) <->
             exists p e, p ∈ players /\ accepted p = Some (u, e))
  /\ (forall p, username_of p = "" -> accepted p = None)
  /\ (Forall integer_counts players ->
      forall u, is_Some ((process_player_data players).1 !! u) <->
                u <> "" /\ exists p, p ∈ players /\ username_of p = u)
  /\ (forall before p57 after,
        players = before ++ p57 :: after ->
        length before = 56%nat -> length after = 43%nat ->
        username_of p57 = "" ->
        Forall (fun p => username_of p <> "") (before ++ after) ->
        NoDup (map username_of (before ++ after)) ->
        Forall integer_counts (before ++ after) ->
        size (process_player_data players).1 = 99%nat
        /\ SkippingNoUsername 57 ∈ (process_player_data players).2
        /\ forall p, p ∈ after ->
             is_Some ((process_player_data players).1 !! username_of p)).
Proof.
  split; [apply process_player_data_is_Some|].
  split; [apply accepted_nameless|].
  split; [apply stored_usernames|].
  intros before p57 after -> Hb Ha H57 Hnames Hdup Hints.
  assert (Homap : omap accepted (before ++ p57 :: after) = omap accepted (before ++ after)).
  { rewrite !omap_app.
    change (omap accepted (p57 :: after))
      with (match accepted p57 with
            | Some x => x :: omap accepted after
            | None => omap accepted after
            end).
    now rewrite (accepted_nameless p57 H57). }
  split; [|split].
  - rewrite process_player_data_fst, Homap.
    rewrite map_size_list_to_map.
    + rewrite length_reverse, <- (length_fmap fst).
      rewrite (omap_accepted_integer _ Hnames Hints).
      rewrite length_map, length_app. lia.
    + rewrite fmap_reverse, reverse_Permutation.
      now rewrite (omap_accepted_integer _ Hnames Hints).
  - replace 57 with (1 + len before) by (unfold len; lia).
    now apply process_player_data_skip_logged.
  - intros p Hp. apply process_player_data_is_Some.
    apply Forall_app in Hnames as [_ Hn]. apply Forall_app in Hints as [_ Hi].
    rewrite Forall_forall in Hn, Hi.
    destruct (accepted_integer p (Hn p Hp) (Hi p Hp)) as [e He].
    exists p, e. split; [|exact He].
    apply elem_of_app. right. now apply elem_of_cons; right.
Qed.

End AggregationResilience.

Section AggregationExample.

Lemma example_player_integer i : integer_counts (example_player i).
Proof. repeat constructor. Qed.

Lemma aggregation_skips_records_without_username_witness :
  length example_batch = 100%nat
  /\ username_of (nameless_player [5000]) = ""
  /\ size (process_player_data example_batch).1 = 99%nat
  /\ SkippingNoUsername 57 ∈ (process_player_data example_batch).2
  /\ forall p, p ∈ example_after ->
       is_Some ((process_player_data example_batch).1 !! username_of p).
Proof.
  split; [reflexivity|]. split; [reflexivity|].
  refine (proj2 (proj2 (proj2 (aggregation_skips_records_without_username example_batch)))
            example_before (nameless_player [5000]) example_after
            eq_refl eq_refl eq_refl eq_refl _ _ _).
  - apply (bool_decide_unpack _). vm_compute. reflexivity.
  - apply (bool_decide_unpack _). vm_compute. reflexivity.
  - apply Forall_app. split; apply Forall_forall; intros p Hp;
      apply list_elem_of_fmap in Hp as (i & -> & _); apply example_player_integer.
Defined.

End AggregationExample.

(** ** get_all_game_data: one iteration *)

Section OneIteration.

(** What one iteration does, by the answer it receives. *)
Lemma loop_body_spec r st :
  match loop_body r st with
  | Continue st' =>
    (falsy (answer r st) = true /\ retry_count st < max_retries
     /\ skip st' = skip st /\ all_players st' = all_players st
     /\ retry_count st' = retry_count st + 1
     /\ console st' = console st ++ request_lines r st ++ [Retrying (retry_count st + 1)])
    \/
    (falsy (answer r st) = false /\ take <= len (get_val (answer r st))
     /\ skip st' = skip st + take
     /\ all_players st' = all_players st ++ get_val (answer r st)
     /\ retry_count st' = 0
     /\ console st' = console st ++ request_lines r st
                      ++ page_lines st (get_val (answer r st)))
  | Break st' =>
    (falsy (answer r st) = true /\ max_retries <= retry_count st
     /\ all_players st' = all_players st
     /\ console st' = console st ++ request_lines r st ++ [MaxRetriesReached])
    \/
    (falsy (answer r st) = false /\ len (get_val (answer r st)) < take
     /\ all_players st' = all_players st ++ get_val (answer r st)
     /\ retry_count st' = 0
     /\ console st' = console st ++ request_lines r st
                      ++ page_lines st (get_val (answer r st)))
  end.
Proof.
  unfold loop_body, answer, request_lines, page_lines, get_game_data.
  destruct (r (skip st) take) as [d|]; cbn [fst snd say skip retry_count all_players console].
  - destruct (falsy (Some d)) eqn:Hf.
    + destruct (Z.ltb_spec (retry_count st) max_retries).
      * left. cbn. rewrite <- app_assoc. auto 10.
      * left. cbn. rewrite <- app_assoc. auto 10.
    + cbn [get_val]. destruct (default [] (val d)) as [|p l] eqn:Hval.
      * right. cbn. rewrite <- app_assoc, app_nil_r. unfold take. repeat split; lia.
      * rewrite !len_cons. pose proof (len_nonneg l).
        destruct (Z.eqb_spec (1 + len l) 0); [lia|].
        destruct (Z.ltb_spec (1 + len l) take).
        -- right. cbn. rewrite <- !app_assoc. auto 10.
        -- right. cbn. rewrite <- !app_assoc. auto 10.
  - cbn [falsy]. destruct (Z.ltb_spec (retry_count st) max_retries).
    + left. cbn. rewrite <- app_assoc. auto 10.
    + left. cbn. rewrite <- app_assoc. auto 10.
Qed.

End OneIteration.

(** ** get_all_game_data: the loop *)

Section Loop.

Lemma fetch_loop_iterate pre rest st st' :
  iterate pre st = Some st' -> fetch_loop (pre ++ rest) st = fetch_loop rest st'.
Proof.
  revert st. induction pre as [|r pre IH]; intros st; cbn [iterate app fetch_loop].
  - now intros [= ->].
  - destruct (loop_body r st); [apply IH | discriminate].
Qed.

Lemma iterate_app pre1 pre2 st st' :
  iterate pre1 st = Some st' -> iterate (pre1 ++ pre2) st = iterate pre2 st'.
Proof.
  revert st. induction pre1 as [|r pre IH]; intros st; cbn [iterate app].
  - now intros [= ->].
  - destruct (loop_body r st); [apply IH | discriminate].
Qed.

Lemma request_lines_quiet r st : MaxRetriesReached ∉ request_lines r st.
Proof.
  unfold request_lines, get_game_data.
  destruct (r (skip st) take); cbn [snd]; intros H;
    repeat (apply elem_of_cons in H as [H|H]; [discriminate H|]);
    now apply elem_of_nil in H.
Qed.

Lemma page_lines_quiet st players : MaxRetriesReached ∉ page_lines st players.
Proof.
  unfold page_lines.
  destruct (Z.eqb _ _); [|destruct (Z.ltb _ _)]; intros H;
    repeat (apply elem_of_cons in H as [H|H]; [discriminate H|]);
    now apply elem_of_nil in H.
Qed.

Lemma loop_body_invariant r st st' :
  loop_invariant st -> loop_body r st = Continue st' -> loop_invariant st'.
Proof.
  intros [Hrc Hquiet] Hbody. pose proof (loop_body_spec r st) as Hspec.
  rewrite Hbody in Hspec. unfold loop_invariant.
  destruct Hspec as [(_ & Hlt & _ & _ & -> & ->)|(_ & _ & _ & _ & -> & ->)].
  - split; [lia|]. rewrite !elem_of_app. intros [H|[H|H]]; [tauto| |].
    + now apply request_lines_quiet in H.
    + apply list_elem_of_singleton in H. discriminate H.
  - split; [unfold max_retries; lia|]. rewrite !elem_of_app. intros [H|[H|H]]; [tauto| |].
    + now apply request_lines_quiet in H.
    + now apply page_lines_quiet in H.
Qed.

Lemma iterate_invariant pre st st' :
  loop_invariant st -> iterate pre st = Some st' -> loop_invariant st'.
Proof.
  revert st. induction pre as [|r pre IH]; intros st Hinv; cbn [iterate].
  - now intros [= <-].
  - destruct (loop_body r st) as [st1|st1] eqn:Hbody; [|discriminate].
    apply IH. now apply (loop_body_invariant r st).
Qed.

Lemma initial_invariant : loop_invariant initial_state.
Proof. split; [cbn; unfold max_retries; lia | apply not_elem_of_nil]. Qed.

(** A failed request below the bound is retried: same offset, same players,
    one more on the counter. *)
Lemma loop_body_retry r st :
  falsy (answer r st) = true -> retry_count st < max_retries ->
  exists st', loop_body r st = Continue st'
              /\ skip st' = skip st /\ all_players st' = all_players st
              /\ retry_count st' = retry_count st + 1
              /\ console st' = console st ++ request_lines r st
                               ++ [Retrying (retry_count st + 1)].
Proof.
  intros Hf Hlt. pose proof (loop_body_spec r st) as Hspec.
  destruct (loop_body r st) as [st'|st'].
  - destruct Hspec as [(_ & _ & H)|(Hf' & _)]; [eauto | congruence].
  - destruct Hspec as [(_ & Hge & _)|(Hf' & _)]; [lia | congruence].
Qed.

(** A failed request at the bound ends the loop with the players gathered
    so far. *)
Lemma loop_body_exhausted r st :
  falsy (answer r st) = true -> max_retries <= retry_count st ->
  exists st', loop_body r st = Break st'
              /\ all_players st' = all_players st
              /\ console st' = console st ++ request_lines r st ++ [MaxRetriesReached].
Proof.
  intros Hf Hge. pose proof (loop_body_spec r st) as Hspec.
  destruct (loop_body r st) as [st'|st'].
  - destruct Hspec as [(_ & Hlt & _)|(Hf' & _)]; [lia | congruence].
  - destruct Hspec as [(_ & _ & H)|(Hf' & _)]; [eauto | congruence].
Qed.

End Loop.

Section Retries.

Lemma requested_offsets_app a b :
  requested_offsets (a ++ b) = requested_offsets a ++ requested_offsets b.
Proof.
  induction a as [|e a IH]; [reflexivity|].
  destruct e; cbn [app requested_offsets]; rewrite IH; reflexivity.
Qed.

Lemma requested_offsets_request r st : requested_offsets (request_lines r st) = [skip st].
Proof. unfold request_lines, get_game_data. now destruct (r (skip st) take). Qed.

Lemma falsy_failing st : falsy (answer failing st) = true.
Proof. reflexivity. Qed.

(** Failures in a row, as long as the counter allows: the offset and the
    players stay, each failure is one request at that offset. *)
Lemma iterate_failing k st :
  0 <= retry_count st -> retry_count st + Z.of_nat k <= max_retries ->
  exists st', iterate (replicate k failing) st = Some st'
              /\ skip st' = skip st /\ all_players st' = all_players st
              /\ retry_count st' = retry_count st + Z.of_nat k
              /\ requested_offsets (console st')
                 = requested_offsets (console st) ++ replicate k (skip st).
Proof.
  revert st. induction k as [|k IH]; intros st H0 Hk.
  - exists st. cbn [replicate iterate]. rewrite app_nil_r. repeat split; lia.
  - destruct (loop_body_retry failing st (falsy_failing st) ltac:(lia))
      as (st1 & Hbody & Hskip & Hall & Hrc & Hcons).
    destruct (IH st1 ltac:(lia) ltac:(lia)) as (st' & Hit & Hskip' & Hall' & Hrc' & Hoff).
    exists st'. cbn [replicate iterate]. rewrite Hbody.
    split; [exact Hit|]. split; [congruence|]. split; [congruence|]. split; [lia|].
    rewrite Hoff, Hcons, !requested_offsets_app, requested_offsets_request, Hskip.
    cbn [requested_offsets]. rewrite app_nil_r, <- !app_assoc. reflexivity.
Qed.

(** Four failures in a row from a fresh counter: four requests at the same
    offset, then the loop ends with the players gathered so far, leaving
    the remaining answers untouched. *)
Lemma fetch_loop_four_failures st rest :
  retry_count st = 0 ->
  exists st', fetch_loop (replicate 4 failing ++ rest) st = Some (st', rest)
              /\ all_players st' = all_players st
              /\ MaxRetriesReached ∈ console st'
              /\ requested_offsets (console st')
                 = requested_offsets (console st) ++ replicate 4 (skip st).
Proof.
  intros Hrc.
  destruct (iterate_failing 3 st ltac:(lia) ltac:(unfold max_retries; lia))
    as (st3 & Hit & Hskip & Hall & Hrc3 & Hoff).
  destruct (loop_body_exhausted failing st3 (falsy_failing st3)
              ltac:(unfold max_retries; lia)) as (st' & Hbody & Hall' & Hcons).
  exists st'.
  change (replicate 4 failing ++ rest) with (replicate 3 failing ++ failing :: rest).
  rewrite (fetch_loop_iterate _ _ _ _ Hit). cbn [fetch_loop]. rewrite Hbody.
  split; [reflexivity|]. split; [congruence|]. split.
  - rewrite Hcons, !elem_of_app. right. right. now apply list_elem_of_singleton.
  - rewrite Hcons, !requested_offsets_app, requested_offsets_request, Hoff, Hskip.
    cbn [requested_offsets replicate]. rewrite app_nil_r, <- !app_assoc. reflexivity.
Qed.

End Retries.

Section RetryClaim.

(** C7, as stated, fails in its last part: the result carries no flag.  A
    fetch that gave up at offset 20 and a fetch that saw the end of the data
    at offset 20 return the same list, so nothing computed from the returned
    list tells whether the retries were exhausted. *)
Lemma returned_list_carries_no_flag :
  ~ exists flag : list player -> bool,
      forall net players out,
        get_all_game_data net = Some (players, out) ->
        (flag players = true <-> MaxRetriesReached ∈ out).
Proof.
  intros [flag Hflag].
  destruct (get_all_game_data run_exhausted) as [[pa outa]|] eqn:Ha; [|discriminate Ha].
  destruct (get_all_game_data run_complete) as [[pb outb]|] eqn:Hb; [|discriminate Hb].
  pose proof (Hflag _ _ _ Ha) as Hfa. pose proof (Hflag _ _ _ Hb) as Hfb.
  assert (Hin : MaxRetriesReached ∈ outa).
  { injection Ha as _ <-. apply (bool_decide_unpack _). vm_compute. reflexivity. }
  assert (Hout : MaxRetriesReached ∉ outb).
  { injection Hb as _ <-. apply (bool_decide_unpack _). vm_compute. reflexivity. }
  assert (Hsame : pa = pb).
  { injection Ha as <- _. injection Hb as <- _. vm_compute. reflexivity. }
  subst pb. apply Hout, Hfb, Hfa, Hin.
Qed.

(** C7, amended.  Take any answers [pre] that bring the loop, without
    ending it, to a state [st].  The retry counter is then between 0 and 3.
    A failed fetch with the counter below 3 is retried at the same offset,
    with the players kept and the counter raised by one; a failed fetch with
    the counter at 3 ends the fetching, whatever answers would follow, and
    the players accumulated so far are returned; the exhausted retries are
    reported by a line on the console, the returned list itself carries no
    mark.  A successful fetch that continues resets the counter to zero and
    moves to the next offset.  From a fresh counter, four failures are four
    requests at one offset (the first attempt and three retries).  The
    report of exhausted retries is not printed when the loop ends on a short
    or empty page. *)
Theorem retry_policy (pre : list reply) (st : loop_state) :
  iterate pre initial_state = Some st ->
  0 <= retry_count st <= max_retries
  /\ (forall r, falsy (answer r st) = true -> retry_count st < max_retries ->
        exists st', loop_body r st = Continue st' /\ skip st' = skip st
                    /\ all_players st' = all_players st
                    /\ retry_count st' = retry_count st + 1)
  /\ (forall r rest, falsy (answer r st) = true -> retry_count st = max_retries ->
        exists out, get_all_game_data (pre ++ r :: rest) = Some (all_players st, out)
                    /\ MaxRetriesReached ∈ out)
  /\ (forall r st', falsy (answer r st) = false -> loop_body r st = Continue st' ->
        retry_count st' = 0 /\ skip st' = skip st + take)
  /\ (retry_count st = 0 -> forall rest,
        exists out, get_all_game_data (pre ++ replicate 4 failing ++ rest)
                    = Some (all_players st, out)
                    /\ MaxRetriesReached ∈ out
                    /\ requested_offsets out
                       = requested_offsets (console st) ++ replicate 4 (skip st))
  /\ (forall r rest st', falsy (answer r st) = false -> loop_body r st = Break st' ->
        exists out, get_all_game_data (pre ++ r :: rest) = Some (all_players st', out)
                    /\ MaxRetriesReached ∉ out).
Proof.
  intros Hpre.
  destruct (iterate_invariant _ _ _ initial_invariant Hpre) as [Hrc Hquiet].
  split; [exact Hrc|]. split; [|split; [|split; [|split]]].
  - intros r Hf Hlt.
    destruct (loop_body_retry r st Hf Hlt) as (st' & ? & ? & ? & ? & _). eauto.
  - intros r rest Hf Hmax.
    destruct (loop_body_exhausted r st Hf ltac:(lia)) as (st' & Hbody & Hall & Hcons).
    unfold get_all_game_data. rewrite (fetch_loop_iterate _ _ _ _ Hpre).
    cbn [fetch_loop]. rewrite Hbody, Hall. eexists. split; [reflexivity|].
    rewrite Hcons, !elem_of_app. left. right. right. now apply list_elem_of_singleton.
  - intros r st' Hf Hbody. pose proof (loop_body_spec r st) as Hspec.
    rewrite Hbody in Hspec.
    destruct Hspec as [(Hf' & _)|(_ & _ & ? & _ & ? & _)]; [congruence | auto].
  - intros Hfresh rest.
    destruct (fetch_loop_four_failures st rest Hfresh) as (st' & Hloop & Hall & Hin & Hoff).
    unfold get_all_game_data. rewrite (fetch_loop_iterate _ _ _ _ Hpre), Hloop, Hall.
    eexists. split; [reflexivity|]. split.
    + apply elem_of_app. now left.
    + rewrite requested_offsets_app, Hoff. cbn [requested_offsets]. now rewrite app_nil_r.
  - intros r rest st' Hf Hbody. pose proof (loop_body_spec r st) as Hspec.
    rewrite Hbody in Hspec.
    destruct Hspec as [(Hf' & _)|(_ & _ & _ & _ & Hcons)]; [congruence|].
    unfold get_all_game_data. rewrite (fetch_loop_iterate _ _ _ _ Hpre).
    cbn [fetch_loop]. rewrite Hbody. eexists. split; [reflexivity|].
    rewrite Hcons, !elem_of_app. intros [[H|[H|H]]|H].
    + tauto.
    + now apply request_lines_quiet in H.
    + now apply page_lines_quiet in H.
    + apply list_elem_of_singleton in H. discriminate H.
Qed.

(** The retry scenario: after two full pages, attempts 1 and 2 at offset 40
    fail.  The loop is still at offset 40 with the counter at 2; when the
    third attempt succeeds it moves to offset 60 with the counter at zero. *)
Lemma retry_policy_witness :
  exists st,
    iterate retry_scenario initial_state = Some st
    /\ skip st = 40 /\ retry_count st = 2
    /\ 0 <= retry_count st <= max_retries
    /\ exists st', loop_body (page full_page) st = Continue st'
                   /\ retry_count st' = 0 /\ skip st' = 60.
Proof.
  destruct (iterate retry_scenario initial_state) as [st|] eqn:Hst; [|discriminate Hst].
  exists st. split; [reflexivity|].
  pose proof (retry_policy retry_scenario st Hst) as (Hrc & _ & _ & Hreset & _).
  assert (Hv : skip st = 40 /\ retry_count st = 2
               /\ falsy (answer (page full_page) st) = false
               /\ exists st', loop_body (page full_page) st = Continue st').
  { injection Hst as <-. vm_compute. repeat split. eexists. reflexivity. }
  destruct Hv as (Hs & Hr & Hf & st' & Hbody).
  split; [exact Hs|]. split; [exact Hr|]. split; [exact Hrc|].
  exists st'. split; [exact Hbody|].
  destruct (Hreset _ _ Hf Hbody) as [H0 Hskip]. split; [exact H0|].
  rewrite Hskip, Hs. reflexivity.
Defined.

End RetryClaim.

(** ** get_all_game_data against an endpoint with N players *)

Section Pagination.

Variable db : list player.

Lemma successful_requests_app a b :
  successful_requests (a ++ b) = successful_requests a + successful_requests b.
Proof.
  unfold successful_requests, len. rewrite List.filter_app, length_app. lia.
Qed.

Lemma successful_requests_failing st :
  successful_requests (request_lines failing st) = 0.
Proof. reflexivity. Qed.

Lemma successful_requests_serve st :
  successful_requests (request_lines (serve db) st) = 1.
Proof. reflexivity. Qed.

Lemma successful_requests_page_lines st players :
  successful_requests (page_lines st players) = 0.
Proof. unfold page_lines. destruct (Z.eqb _ _); [|destruct (Z.ltb _ _)]; reflexivity. Qed.

Lemma requested_offsets_page_lines st players :
  requested_offsets (page_lines st players) = [].
Proof. unfold page_lines. destruct (Z.eqb _ _); [|destruct (Z.ltb _ _)]; reflexivity. Qed.

Lemma answer_serve st :
  falsy (answer (serve db) st) = false
  /\ get_val (answer (serve db) st) = firstn 20 (skipn (Z.to_nat (skip st)) db).
Proof. split; reflexivity. Qed.

(** One iteration against the endpoint, after [k] full pages. *)
Lemma loop_body_serve k st :
  pages_received db k st ->
  match loop_body (serve db) st with
  | Continue st' => pages_received db (S k) st'
  | Break st' =>
    all_players st' = db
    /\ successful_requests (console st') = len db / 20 + 1
    /\ (MaxRetriesReached ∉ console st')
    /\ last (requested_offsets (console st')) = Some (20 * (len db / 20))
  end.
Proof.
  intros (Hskip & Hall & Hle & Hreq & Hinv).
  pose proof (loop_body_spec (serve db) st) as Hspec.
  destruct (answer_serve st) as [Hf Hval]. rewrite Hf, Hval in Hspec.
  assert (Hnat : Z.to_nat (skip st) = (20 * k)%nat) by lia.
  rewrite Hnat in Hspec.
  assert (Hlen : len (firstn 20 (skipn (20 * k) db))
                 = Z.of_nat (Nat.min 20 (length db - 20 * k))).
  { unfold len. now rewrite length_take, length_drop. }
  rewrite Hlen in Hspec. unfold take in Hspec.
  destruct (loop_body (serve db) st) as [st'|st'].
  - destruct Hspec as [(Hf' & _)|(_ & Hfull & Hskip' & Hall' & Hrc' & Hcons)];
      [discriminate Hf'|].
    split; [lia|]. split; [|split; [lia|split]].
    + rewrite Hall', Hall, take_take_drop. f_equal. lia.
    + rewrite Hcons, !successful_requests_app, successful_requests_serve,
        successful_requests_page_lines. lia.
    + split; [rewrite Hrc'; unfold max_retries; lia|].
      rewrite Hcons, !elem_of_app. destruct Hinv as [_ Hquiet].
      intros [H|[H|H]]; [tauto| |].
      * now apply request_lines_quiet in H.
      * now apply page_lines_quiet in H.
  - destruct Hspec as [(Hf' & _)|(_ & Hshort & Hall' & Hrc' & Hcons)];
      [discriminate Hf'|].
    assert (Hdiv : len db / 20 = Z.of_nat k).
    { symmetry. apply (Z.div_unique _ _ _ (len db - 20 * Z.of_nat k)); unfold len; lia. }
    split; [|split; [|split]].
    + rewrite Hall', Hall, take_take_drop. apply take_ge. lia.
    + rewrite Hcons, !successful_requests_app, successful_requests_serve,
        successful_requests_page_lines, Hreq. lia.
    + rewrite Hcons, !elem_of_app. destruct Hinv as [_ Hquiet].
      intros [H|[H|H]]; [tauto| |].
      * now apply request_lines_quiet in H.
      * now apply page_lines_quiet in H.
    + rewrite Hcons, !requested_offsets_app, requested_offsets_request,
        requested_offsets_page_lines, app_nil_r, last_snoc. f_equal. lia.
Qed.

(** A failure in between changes neither the pages received nor the count of
    answered requests; it ends the loop only with the report of exhausted
    retries. *)
Lemma loop_body_failing k st :
  pages_received db k st ->
  match loop_body failing st with
  | Continue st' => pages_received db k st'
  | Break st' => MaxRetriesReached ∈ console st'
  end.
Proof.
  intros (Hskip & Hall & Hle & Hreq & Hinv).
  pose proof (loop_body_spec failing st) as Hspec.
  destruct (loop_body failing st) as [st'|st'] eqn:Hbody.
  - pose proof (loop_body_invariant _ _ _ Hinv Hbody) as Hinv'.
    destruct Hspec as [(_ & _ & Hskip' & Hall' & _ & Hcons)|(Hf' & _)]; [|discriminate Hf'].
    split; [congruence|]. split; [congruence|]. split; [exact Hle|]. split; [|exact Hinv'].
    rewrite Hcons, !successful_requests_app, successful_requests_failing.
    change (successful_requests [Retrying (retry_count st + 1)]) with 0. lia.
  - destruct Hspec as [(_ & _ & _ & Hcons)|(Hf' & _)]; [|discriminate Hf'].
    rewrite Hcons, !elem_of_app. right. right. now apply list_elem_of_singleton.
Qed.

End Pagination.

Section PaginationRuns.

Variable db : list player.

(** A run that ends without the report of exhausted retries has received
    every player, in [len db / 20 + 1] answered requests, the last request
    being the one for the short or empty page. *)
Lemma fetch_loop_served net k st st' rest :
  served_by db net -> pages_received db k st ->
  fetch_loop net st = Some (st', rest) ->
  MaxRetriesReached ∉ console st' ->
  all_players st' = db
  /\ successful_requests (console st') = len db / 20 + 1
  /\ last (requested_offsets (console st')) = Some (20 * (len db / 20)).
Proof.
  intros Hnet. revert k st. induction Hnet as [|r net Hr _ IH]; intros k st Hrec;
    cbn [fetch_loop]; [discriminate|].
  destruct Hr as [-> | ->].
  - pose proof (loop_body_failing db k st Hrec) as Hstep.
    destruct (loop_body failing st) as [st1|st1].
    + now apply (IH k).
    + intros [= <- <-] Hquiet. tauto.
  - pose proof (loop_body_serve db k st Hrec) as Hstep.
    destruct (loop_body (serve db) st) as [st1|st1].
    + now apply (IH (S k)).
    + intros [= <- <-] _. tauto.
Qed.

(** Without failures the loop ends within [len db / 20 + 1] requests. *)
Lemma fetch_loop_terminates n k st :
  pages_received db k st -> (k + n = length db / 20 + 1)%nat ->
  exists st' rest, fetch_loop (replicate n (serve db)) st = Some (st', rest)
                   /\ (MaxRetriesReached ∉ console st').
Proof.
  revert k st. induction n as [|n IH]; intros k st Hrec Hkn.
  - destruct Hrec as (_ & _ & Hle & _).
    pose proof (Nat.div_mod_eq (length db) 20) as Hdm.
    pose proof (Nat.mod_upper_bound (length db) 20 ltac:(lia)). lia.
  - cbn [replicate fetch_loop].
    pose proof (loop_body_serve db k st Hrec) as Hstep.
    destruct (loop_body (serve db) st) as [st1|st1].
    + apply (IH (S k)); [exact Hstep | lia].
    + exists st1, (replicate n (serve db)). split; [reflexivity | tauto].
Qed.

Lemma pages_received_initial : pages_received db 0 initial_state.
Proof.
  repeat split; cbn; try lia; try apply not_elem_of_nil. unfold max_retries. lia.
Qed.

End PaginationRuns.

Section PaginationClaim.

(** C4, as stated, fails when the number of players is a multiple of the
    page size: with 20 players the loop needs a second answered request, the
    empty page, to see the end, and [ceil(20/20)] is 1. *)
Lemma full_last_page_needs_one_more_request :
  exists out,
    len full_page = 20
    /\ get_all_game_data [serve full_page; serve full_page] = Some (full_page, out)
    /\ requested_offsets out = [0; 20]
    /\ successful_requests out = 2
    /\ ceil_div (len full_page) 20 = 1
    /\ successful_requests out <> ceil_div (len full_page) 20.
Proof.
  eexists. split; [reflexivity|]. split; [vm_compute; reflexivity|].
  split; [reflexivity|]. split; [reflexivity|]. split; [reflexivity|]. discriminate.
Qed.

Lemma ceil_div_20 n :
  0 <= n ->
  (n mod 20 <> 0 -> n / 20 + 1 = ceil_div n 20)
  /\ (n mod 20 = 0 -> n / 20 + 1 = ceil_div n 20 + 1).
Proof.
  intros Hn. unfold ceil_div.
  pose proof (Z.div_mod n 20 ltac:(lia)) as Hdm.
  pose proof (Z.mod_pos_bound n 20 ltac:(lia)) as Hmod.
  split; intros Hr.
  - apply (Z.div_unique _ _ _ (n mod 20 - 1)); lia.
  - assert ((n + 20 - 1) / 20 = n / 20); [|lia].
    symmetry. apply (Z.div_unique _ _ _ 19); lia.
Qed.

(** C4, amended.  Against an endpoint that holds N players and serves them
    in pages of 20, the fetch loop ends after [N / 20 + 1] answered page
    requests, retried attempts not counted: that is [ceil(N/20)] when N is
    not a multiple of 20 and one more, the empty page, when it is.  The last
    request issued is the one for that short or empty page, at offset
    [20 * (N / 20)], and every player is returned.  Without failures the
    loop does end. *)
Theorem page_requests_of_campaign (db : list player) :
  (exists out,
     get_all_game_data (replicate (length db / 20 + 1) (serve db)) = Some (db, out)
     /\ successful_requests out = len db / 20 + 1
     /\ last (requested_offsets out) = Some (20 * (len db / 20)))
  /\ (forall net players out,
        served_by db net -> get_all_game_data net = Some (players, out) ->
        MaxRetriesReached ∉ out ->
        players = db
        /\ successful_requests out = len db / 20 + 1
        /\ last (requested_offsets out) = Some (20 * (len db / 20)))
  /\ (len db mod 20 <> 0 -> len db / 20 + 1 = ceil_div (len db) 20)
  /\ (len db mod 20 = 0 -> len db / 20 + 1 = ceil_div (len db) 20 + 1).
Proof.
  assert (Hgen : forall net players out,
             served_by db net -> get_all_game_data net = Some (players, out) ->
             MaxRetriesReached ∉ out ->
             players = db
             /\ successful_requests out = len db / 20 + 1
             /\ last (requested_offsets out) = Some (20 * (len db / 20))).
  { intros net players out Hnet. unfold get_all_game_data.
    destruct (fetch_loop net initial_state) as [[st rest]|] eqn:Hloop; [|discriminate].
    intros [= <- <-] Hquiet.
    destruct (fetch_loop_served db net 0 initial_state st rest Hnet
                (pages_received_initial db) Hloop) as (Hall & Hreq & Hlast).
    { intros H. apply Hquiet, elem_of_app. now left. }
    split; [exact Hall|]. split.
    - rewrite successful_requests_app, Hreq.
      change (successful_requests [FinalFetched (len (all_players st))]) with 0. lia.
    - rewrite requested_offsets_app. cbn [requested_offsets]. now rewrite app_nil_r. }
  split; [|split; [exact Hgen | apply ceil_div_20, len_nonneg]].
  destruct (fetch_loop_terminates db (length db / 20 + 1) 0 initial_state
              (pages_received_initial db) eq_refl) as (st & rest & Hloop & Hquiet).
  assert (Hrun : get_all_game_data (replicate (length db / 20 + 1) (serve db))
                 = Some (all_players st, console st ++ [FinalFetched (len (all_players st))])).
  { unfold get_all_game_data. now rewrite Hloop. }
  assert (Hnet : served_by db (replicate (length db / 20 + 1) (serve db)))
    by (apply Forall_replicate; now right).
  destruct (Hgen _ _ _ Hnet Hrun)
    as (Hall & Hreq & Hlast).
  { rewrite elem_of_app. intros [H|H]; [tauto|].
    apply list_elem_of_singleton in H. discriminate H. }
  exists (console st ++ [FinalFetched (len (all_players st))]).
  rewrite Hall in Hrun, Hreq, Hlast. rewrite Hrun, Hall. repeat split; assumption.
Qed.

Lemma page_requests_of_campaign_witness :
  exists out,
    served_by campaign_45 run_45
    /\ get_all_game_data run_45 = Some (campaign_45, out)
    /\ (MaxRetriesReached ∉ out)
    /\ len campaign_45 = 45
    /\ successful_requests out = len campaign_45 / 20 + 1
    /\ last (requested_offsets out) = Some (20 * (len campaign_45 / 20)).
Proof.
  destruct (get_all_game_data run_45) as [[players out]|] eqn:Hrun; [|discriminate Hrun].
  assert (Hserved : served_by campaign_45 run_45).
  { repeat constructor; (now left) || (now right). }
  assert (Hv : players = campaign_45 /\ MaxRetriesReached ∉ out).
  { injection Hrun as <- <-. split; [vm_compute; reflexivity|].
    apply (bool_decide_unpack _). vm_compute. reflexivity. }
  destruct Hv as [-> Hquiet].
  exists out. split; [exact Hserved|]. split; [reflexivity|]. split; [exact Hquiet|].
  split; [reflexivity|].
  destruct (proj1 (proj2 (page_requests_of_campaign campaign_45)) run_45 campaign_45 out
              Hserved Hrun Hquiet) as (_ & Hreq & Hlast).
  split; [exact Hreq | exact Hlast].
Defined.

End PaginationClaim.

(** ** main *)

Section Runs.

(** A complete run on the third day of the campaign: the table is saved and
    the status of the player is partial, one day out of three. *)
Example run_on_third_day :
  exists r, main (example_world "2024-01-03") = Some r
            /\ exit_status r = 0
            /\ saved r = Some {| headers := ["ID"; "Username"; "2024-01-01"; "2024-01-02";
                                             "2024-01-03"; "Task Status"];
                                 rows := [ {| row_id := 7; row_username := "walker";
                                              row_steps := ["12,000"; "8,000"; "-"];
                                              row_status := "Failed(1/3)" |} ] |}.
Proof. eexists. split; [vm_compute; reflexivity|]. split; reflexivity. Qed.

Example run_on_first_day :
  exists r, main (example_world "2024-01-01") = Some r
            /\ (rows <$> saved r) = Some [ {| row_id := 7; row_username := "walker";
                                            row_steps := ["12,000"; "8,000"; "-"];
                                            row_status := "Complete" |} ].
Proof. eexists. split; [vm_compute; reflexivity|]. reflexivity. Qed.

Example run_before_start :
  exists r, main (example_world "2023-12-31") = Some r
            /\ (rows <$> saved r) = Some [ {| row_id := 7; row_username := "walker";
                                            row_steps := ["12,000"; "8,000"; "-"];
                                            row_status := "-" |} ].
Proof. eexists. split; [vm_compute; reflexivity|]. reflexivity. Qed.

End Runs.

Section MissingInput.

(** C9, as stated, fails: a run that finds no roster prints its message and
    saves nothing, but [main] returns normally, so the exit status is 0. *)
Lemma missing_roster_exits_with_zero :
  main world_without_roster
  = Some {| printed := [FailedReadUsers]; exit_status := 0; saved := None |}
  /\ ~ (forall r, main world_without_roster = Some r -> exit_status r <> 0).
Proof.
  split; [reflexivity|]. intros H. now apply (H _ eq_refl).
Qed.

(** C9, amended.  A run started with one command-line argument in which a
    required input is missing (no roster, no campaign overview, a first page
    that cannot be fetched or that shows no campaign day) ends with a
    message for the user as its last line and saves nothing; [main] returns
    normally, so the exit status is 0.  A run started with another number of
    arguments prints the usage line, saves nothing and ends with status 1. *)
Theorem missing_input_ends_run (w : world) :
  (length (argv w) <> 2%nat ->
     main w = Some {| printed := [Usage]; exit_status := 1; saved := None |})
  /\ (length (argv w) = 2%nat -> missing_input w ->
      exists r msg, main w = Some r
                    /\ saved r = None
                    /\ exit_status r = 0
                    /\ last (printed r) = Some msg /\ failure_message msg).
Proof.
  unfold main, missing_input, failure_message. split.
  - intros Hargs. apply Nat.eqb_neq in Hargs. now rewrite Hargs.
  - intros Hargs Hmissing. apply Nat.eqb_eq in Hargs. rewrite Hargs. cbn [negb].
    case_bool_decide as Hroster.
    { eexists _, _. repeat split. now left. }
    destruct (overview w) as [info|] eqn:Hoverview.
    2: { eexists _, _. repeat split. right. now left. }
    destruct Hmissing as [Hm|[Hm|(r & net & Hnet & Hm)]]; [tauto | discriminate Hm |].
    rewrite Hnet. unfold get_game_data.
    destruct (r 0 20) as [d|] eqn:Hr.
    + destruct (falsy (Some d)) eqn:Hf.
      { eexists _, _. split; [reflexivity|]. cbn [saved exit_status printed].
        split; [reflexivity|]. split; [reflexivity|]. rewrite last_snoc. split; [reflexivity|].
        right. right. now left. }
      destruct Hm as [Hm|Hm]; [discriminate Hm|].
      rewrite bool_decide_eq_true_2 by exact Hm.
      eexists _, _. split; [reflexivity|]. cbn [saved exit_status printed].
      split; [reflexivity|]. split; [reflexivity|]. rewrite last_snoc. split; [reflexivity|].
      right. right. now right.
    + cbn [falsy]. eexists _, _. split; [reflexivity|]. cbn [saved exit_status printed].
      split; [reflexivity|]. split; [reflexivity|]. rewrite last_snoc. split; [reflexivity|].
      right. right. now left.
Qed.

Lemma missing_input_ends_run_witness :
  length (argv world_without_overview) = 2%nat
  /\ missing_input world_without_overview
  /\ exists r msg, main world_without_overview = Some r
                   /\ saved r = None
                   /\ exit_status r = 0
                   /\ last (printed r) = Some msg /\ failure_message msg.
Proof.
  assert (Hargs : length (argv world_without_overview) = 2%nat) by reflexivity.
  assert (Hmissing : missing_input world_without_overview) by (right; left; reflexivity).
  split; [exact Hargs|]. split; [exact Hmissing|].
  exact (proj2 (missing_input_ends_run world_without_overview) Hargs Hmissing).
Defined.

End MissingInput.

(** ** The evaluation on the campaign of three days *)

Section EvaluationExamples.



Lemma partial_status_below_required_witness :
  check_task_completion three_days 10000 "2024-01-03" = Ok (failed_text 1 3)
  /\ 0 <= 1 < 3.
Proof.
  assert (H : check_task_completion three_days 10000 "2024-01-03" = Ok (failed_text 1 3))
    by reflexivity.
  split; [exact H | exact (partial_status_below_required _ _ _ _ _ H)].
Defined.

End EvaluationExamples.

(** * Further properties of the program *)

(** ** Displayed counts of any sign *)

Section SignedCounts.

Lemma nilzero_of_to_uint p :
  NilZero.string_of_uint (Pos.to_uint p) = NilEmpty.string_of_uint (Pos.to_uint p).
Proof.
  pose proof (DecimalPos.Unsigned.to_uint_nonnil p) as Hnil.
  now destruct (Pos.to_uint p).
Qed.

(** Taking the separators out of a grouped numeral gives the plain one. *)
Lemma replace_comma_format_comma n : replace "," "" (format_comma n) = str n.
Proof.
  unfold format_comma, str, NilZero.string_of_int.
  destruct (Z.to_int n) as [d|d].
  - apply replace_comma_group, all_digits_has_char; [reflexivity | apply all_digits_nilzero].
  - unfold replace. cbn [replace_from String.prefix].
    destruct (ascii_dec "," "-") as [Heq|_]; [discriminate Heq|].
    f_equal. apply replace_comma_group, all_digits_has_char;
      [reflexivity | apply all_digits_nilzero].
Qed.

(** The conversion of [display_results] turns the sign of a negative numeral
    into a leading zero. *)
Lemma steps_to_int_negative p : steps_to_int (format_comma (Z.neg p)) = Ok (Z.pos p).
Proof.
  unfold steps_to_int. rewrite replace_comma_format_comma.
  unfold str, Z.to_int, NilZero.string_of_int.
  pose proof (all_digits_nilzero (Pos.to_uint p)) as Hd.
  rewrite (replace_absent "k" "+")
    by (cbn [has_char]; apply all_digits_has_char; [reflexivity | exact Hd]).
  unfold replace. cbn [replace_from String.prefix String.length Nat.pred].
  destruct (ascii_dec "-" "-") as [_|Hne]; [|now destruct Hne].
  assert (Hrest : replace_from "-" "0" 0 (NilZero.string_of_uint (Pos.to_uint p))
                  = NilZero.string_of_uint (Pos.to_uint p)).
  { apply (replace_absent "-" ""). apply all_digits_has_char; [reflexivity | exact Hd]. }
  destruct (NilZero.string_of_uint (Pos.to_uint p)) as [|c r] eqn:Hs;
    [now apply nilzero_nonempty in Hs|].
  rewrite Hrest. cbn [String.prefix String.append].
  assert (Hall : all_digits (String "0" (String c r)) = true).
  { cbn [all_digits] in Hd |- *. now rewrite Hd. }
  rewrite int_digits by exact Hall.
  rewrite <- Hs, nilzero_of_to_uint.
  change ("0" +:+ NilEmpty.string_of_uint (Pos.to_uint p))
    with (String "0" (NilEmpty.string_of_uint (Pos.to_uint p))).
  unfold NilZero.uint_of_string. cbn [NilEmpty.uint_of_string].
  rewrite NilEmpty.usu. cbn [uint_of_char].
  change (Z.of_uint (D0 (Pos.to_uint p))) with (Z.of_uint (Pos.to_uint p)).
  rewrite of_uint_to_uint. f_equal.
Qed.

Lemma format_comma_negative_not_placeholder p : format_comma (Z.neg p) <> "-".
Proof.
  unfold format_comma, Z.to_int. intros [= H].
  pose proof (nilzero_nonempty (Pos.to_uint p)) as Hne.
  destruct (NilZero.string_of_uint (Pos.to_uint p)); [now apply Hne | discriminate H].
Qed.

End SignedCounts.

Section SignedCountsProperty.

Lemma format_steps_below_cap n :
  n <> 0 -> n < 30000 -> format_steps (VInt n) = Ok (format_comma n).
Proof.
  intros Hn Hcap. cbn [format_steps]. unfold format_number. cbn [isna eq_zero orb ge].
  destruct (Z.eqb_spec n 0); [contradiction|].
  destruct (Z.leb_spec 30000 n); [lia|]. reflexivity.
Qed.

(** X1.  For every integer count [n] other than 0 and below 30000, also a
    negative one, [format_steps] returns a text from which removing the
    commas gives the plain numeral of [n], and the conversion of
    [display_results] reads that text as the magnitude of [n]: the sign of a
    negative count is replaced by a zero, so -1234 counts as 1234 steps. *)
Theorem displayed_count_read_as_magnitude (n : Z) :
  n <> 0 -> n < 30000 ->
  exists s, format_steps (VInt n) = Ok s
            /\ replace "," "" s = str n
            /\ comparable_steps [s] 0 = Ok (Z.abs n).
Proof.
  intros Hn Hcap. exists (format_comma n).
  split; [now apply format_steps_below_cap|].
  split; [apply replace_comma_format_comma|].
  unfold comparable_steps. cbn [lookup list_lookup].
  destruct n as [|p|p]; [contradiction| |].
  - rewrite bool_decide_eq_true_2 by (apply format_comma_not_placeholder; lia).
    apply steps_to_int_format_comma. lia.
  - rewrite bool_decide_eq_true_2 by apply format_comma_negative_not_placeholder.
    apply steps_to_int_negative.
Qed.

Lemma displayed_count_read_as_magnitude_witness :
  -1234 <> 0 /\ -1234 < 30000
  /\ exists s, format_steps (VInt (-1234)) = Ok s
               /\ replace "," "" s = str (-1234)
               /\ comparable_steps [s] 0 = Ok (Z.abs (-1234)).
Proof.
  split; [discriminate|]. split; [reflexivity|].
  apply (displayed_count_read_as_magnitude (-1234)); [discriminate | reflexivity].
Defined.

End SignedCountsProperty.

(** ** More on check_task_completion *)

Section CompletionMore.

Lemma count_days_required_le sd t d c r c' r' :
  count_days sd t d c r = Ok (c', r') -> r' - r <= len sd.
Proof.
  revert c r. induction sd as [|step rest IH]; intros c r.
  - cbn. intros [= <- <-]. unfold len. cbn. lia.
  - cbn [count_days]. rewrite len_cons. pose proof (len_nonneg rest) as Hlen.
    destruct (str_le (step_date step) d).
    + destruct (get_steps step) as [|n|s]; cbn [ge mbind exc_bind]; try discriminate.
      intros H%IH. lia.
    + intros H%IH. lia.
Qed.

(** The loop only comes to an end on integers. *)
Lemma count_days_ok_numeric sd t d c r res :
  count_days sd t d c r = Ok res -> numeric_when_due d sd.
Proof.
  revert c r. induction sd as [|step rest IH]; intros c r; [constructor|].
  cbn [count_days]. unfold numeric_when_due, due.
  destruct (str_le (step_date step) d) eqn:Hdue.
  - destruct (get_steps step) as [|n|s] eqn:Hg; cbn [ge mbind exc_bind]; try discriminate.
    intros H%IH. constructor; [intros _; now rewrite Hg | exact H].
  - intros H%IH. constructor; [rewrite Hdue; intros Habs; discriminate Habs | exact H].
Qed.

(** The only exception of the loop is the [TypeError] of the comparison. *)
Lemma count_days_raises sd t d c r e :
  count_days sd t d c r = Raise e -> e = TypeError.
Proof.
  revert c r. induction sd as [|step rest IH]; intros c r; [discriminate|].
  cbn [count_days]. destruct (str_le (step_date step) d); [|apply IH].
  destruct (get_steps step) as [|n|s]; cbn [ge mbind exc_bind];
    [now intros [= <-] | apply IH | now intros [= <-]].
Qed.

Lemma count_days_filter_due sd t d c r :
  count_days (List.filter (due d) sd) t d c r = count_days sd t d c r.
Proof.
  revert c r. induction sd as [|step rest IH]; intros c r; [reflexivity|].
  cbn [List.filter count_days]. unfold due at 1.
  destruct (str_le (step_date step) d) eqn:Hdue; [|apply IH].
  cbn [count_days]. rewrite Hdue.
  destruct (ge (get_steps step) (VInt t)) as [b|e]; cbn [mbind exc_bind];
    [apply IH | reflexivity].
Qed.

Lemma met_antitone t1 t2 step : t1 <= t2 -> met t2 step = true -> met t1 step = true.
Proof.
  unfold met. intros Ht. destruct (get_steps step) as [|n|s]; try discriminate.
  intros H%Z.leb_le. apply Z.leb_le. lia.
Qed.

Lemma completed_days_antitone sd t1 t2 d :
  t1 <= t2 -> completed_days_of sd t2 d <= completed_days_of sd t1 d.
Proof.
  intros Ht. unfold completed_days_of.
  induction sd as [|step rest IH]; [reflexivity|].
  cbn [List.filter].
  destruct (due d step); cbn [andb]; [|exact IH].
  destruct (met t2 step) eqn:H2.
  - rewrite (met_antitone t1 t2 step Ht H2), !len_cons. lia.
  - destruct (met t1 step); rewrite ?len_cons; lia.
Qed.

Lemma completed_le_required sd t d : completed_days_of sd t d <= required_days_of sd d.
Proof.
  unfold completed_days_of, required_days_of.
  induction sd as [|step rest IH]; [reflexivity|].
  cbn [List.filter]. destruct (due d step); cbn [andb]; [|exact IH].
  destruct (met t step); rewrite ?len_cons; lia.
Qed.

(** The result of the evaluation, read back: which text for which counts. *)
Lemma check_task_completion_inv sd t d s :
  check_task_completion sd t d = Ok s ->
  numeric_when_due d sd
  /\ s = (if Z.eqb (required_days_of sd d) 0 then "-"
          else if Z.eqb (completed_days_of sd t d) (required_days_of sd d) then "Complete"
          else failed_text (completed_days_of sd t d) (required_days_of sd d)).
Proof.
  unfold check_task_completion.
  destruct (count_days sd t d 0 0) as [[c r]|e] eqn:Hcount; cbn [mbind exc_bind];
    [|discriminate].
  pose proof (count_days_ok_numeric _ _ _ _ _ _ Hcount) as Hnum.
  rewrite count_days_filters in Hcount by exact Hnum.
  injection Hcount as <- <-. rewrite !Z.add_0_l.
  intros H. split; [exact Hnum|].
  destruct (Z.eqb _ 0); [congruence|]. destruct (Z.eqb _ _); congruence.
Qed.

End CompletionMore.

Section CompletionProperties.

(** X2.  When the evaluation returns ['Failed(c/r)'], [r] is the number of
    entries dated at or before the current date, [c] is the number of those
    whose count reaches the target, and [r] does not exceed the number of
    entries of the series. *)
Theorem partial_status_reports_counts (steps_data : list step_entry) (step_target : Z)
    (current_date : string) (c r : Z) :
  check_task_completion steps_data step_target current_date = Ok (failed_text c r) ->
  c = completed_days_of steps_data step_target current_date
  /\ r = required_days_of steps_data current_date
  /\ r <= len steps_data.
Proof.
  intros H. pose proof H as Hinv. apply check_task_completion_inv in Hinv as [_ Hs].
  assert (Hle : required_days_of steps_data current_date <= len steps_data).
  { unfold check_task_completion in H.
    destruct (count_days steps_data step_target current_date 0 0) as [[c0 r0]|e] eqn:Hc;
      [|discriminate H].
    pose proof (count_days_required_le _ _ _ _ _ _ _ Hc) as Hr.
    rewrite count_days_filters in Hc by (now apply (count_days_ok_numeric _ _ _ _ _ _ Hc)).
    injection Hc as _ <-. lia. }
  destruct (Z.eqb _ 0); [discriminate Hs|].
  destruct (Z.eqb _ _); [discriminate Hs|].
  apply failed_text_inj in Hs as [-> ->]. auto.
Qed.

Lemma partial_status_reports_counts_witness :
  check_task_completion three_days 10000 "2024-01-03" = Ok (failed_text 1 3)
  /\ 1 = completed_days_of three_days 10000 "2024-01-03"
  /\ 3 = required_days_of three_days "2024-01-03"
  /\ 3 <= len three_days.
Proof.
  assert (H : check_task_completion three_days 10000 "2024-01-03" = Ok (failed_text 1 3))
    by reflexivity.
  split; [exact H | exact (partial_status_reports_counts _ _ _ _ _ H)].
Defined.

(** X3.  The evaluation returns a status exactly when every entry dated at
    or before the current date holds an integer count (or none); if one of
    them holds a null or a text, it raises [TypeError].  What later entries
    hold does not matter. *)
Theorem evaluation_raises_on_due_non_integer (steps_data : list step_entry)
    (step_target : Z) (current_date : string) :
  (numeric_when_due current_date steps_data ->
     exists s, check_task_completion steps_data step_target current_date = Ok s)
  /\ (~ numeric_when_due current_date steps_data ->
      check_task_completion steps_data step_target current_date = Raise TypeError).
Proof.
  unfold check_task_completion. split.
  - intros H. rewrite count_days_filters by exact H. cbn [mbind exc_bind].
    destruct (Z.eqb _ 0); [eauto|]. destruct (Z.eqb _ _); eauto.
  - intros H.
    destruct (count_days steps_data step_target current_date 0 0) as [res|e] eqn:Hc.
    + destruct H. now apply (count_days_ok_numeric _ _ _ _ _ _ Hc).
    + apply count_days_raises in Hc as ->. reflexivity.
Qed.

Lemma evaluation_raises_on_due_non_integer_witness :
  numeric_when_due "2024-01-01" series_with_text
  /\ (exists s, check_task_completion series_with_text 10000 "2024-01-01" = Ok s)
  /\ ~ numeric_when_due "2024-01-02" series_with_text
  /\ check_task_completion series_with_text 10000 "2024-01-02" = Raise TypeError.
Proof.
  assert (Hnum : numeric_when_due "2024-01-01" series_with_text).
  { repeat constructor; intros H; discriminate H. }
  assert (Hnot : ~ numeric_when_due "2024-01-02" series_with_text).
  { intros H. apply Forall_cons in H as [_ H]. apply Forall_cons in H as [H _].
    specialize (H eq_refl). discriminate H. }
  split; [exact Hnum|]. split.
  { exact (proj1 (evaluation_raises_on_due_non_integer series_with_text 10000 "2024-01-01")
             Hnum). }
  split; [exact Hnot|].
  exact (proj2 (evaluation_raises_on_due_non_integer series_with_text 10000 "2024-01-02")
           Hnot).
Defined.

(** X4.  Lowering the step target never loses a complete status: a series
    that is ['Complete'] for a target is ['Complete'] for every smaller
    target, on the same date. *)
Theorem complete_for_smaller_target (steps_data : list step_entry) (t1 t2 : Z)
    (current_date : string) :
  t1 <= t2 ->
  check_task_completion steps_data t2 current_date = Ok "Complete" ->
  check_task_completion steps_data t1 current_date = Ok "Complete".
Proof.
  intros Ht H. apply check_task_completion_inv in H as [Hnum Hs].
  unfold check_task_completion. rewrite count_days_filters by exact Hnum.
  cbn [mbind exc_bind]. rewrite !Z.add_0_l.
  pose proof (completed_days_antitone steps_data t1 t2 current_date Ht) as Hanti.
  pose proof (completed_le_required steps_data t1 current_date) as Hle.
  destruct (Z.eqb_spec (required_days_of steps_data current_date) 0); [discriminate Hs|].
  destruct (Z.eqb_spec (completed_days_of steps_data t2 current_date)
              (required_days_of steps_data current_date)) as [Heq|Hne].
  - destruct (Z.eqb_spec (completed_days_of steps_data t1 current_date)
                (required_days_of steps_data current_date)); [reflexivity | lia].
  - unfold failed_text in Hs. discriminate Hs.
Qed.

Lemma complete_for_smaller_target_witness :
  5000 <= 10000
  /\ check_task_completion three_days 10000 "2024-01-01" = Ok "Complete"
  /\ check_task_completion three_days 5000 "2024-01-01" = Ok "Complete".
Proof.
  assert (Ht : 5000 <= 10000) by lia.
  assert (H : check_task_completion three_days 10000 "2024-01-01" = Ok "Complete")
    by reflexivity.
  split; [exact Ht|]. split; [exact H|].
  exact (complete_for_smaller_target three_days 5000 10000 "2024-01-01" Ht H).
Defined.

(** X5.  Entries dated after the current date have no effect: the evaluation
    of a series is the evaluation of its entries dated at or before the
    current date, whether it returns or raises. *)
Theorem later_days_do_not_count (steps_data : list step_entry) (step_target : Z)
    (current_date : string) :
  check_task_completion (List.filter (due current_date) steps_data) step_target current_date
  = check_task_completion steps_data step_target current_date.
Proof. unfold check_task_completion. now rewrite count_days_filter_due. Qed.

End CompletionProperties.

Section Timestamps.

Lemma contains_T s : contains "T" s = has_char "T" s.
Proof.
  induction s as [|c r IH]; [reflexivity|].
  cbn [contains has_char String.prefix]. rewrite IH.
  destruct (ascii_dec "T" c) as [<-|Hne]; [now destruct r|].
  destruct (Ascii.eqb_spec c "T") as [->|_]; [now destruct Hne | reflexivity].
Qed.

Lemma split_head_no_separator c s : has_char c s = false -> split_head c s = s.
Proof.
  induction s as [|a r IH]; [reflexivity|]. cbn [has_char split_head].
  intros [Ha Hr]%orb_false_iff. rewrite Ha. now rewrite IH.
Qed.

Lemma has_char_split_head c s : has_char c (split_head c s) = false.
Proof.
  induction s as [|a r IH]; [reflexivity|]. cbn [split_head].
  destruct (Ascii.eqb a c) eqn:Ha; [reflexivity|]. cbn [has_char]. now rewrite Ha, IH.
Qed.

(** The date of an entry is always the part of ['day'] before the first
    ['T']. *)
Lemma step_date_split_head step : step_date step = split_head "T" (day step).
Proof.
  unfold step_date. rewrite contains_T.
  destruct (has_char "T" (day step)) eqn:H; [reflexivity|].
  symmetry. now apply split_head_no_separator.
Qed.

Lemma step_date_strip_time step : step_date (strip_time step) = step_date step.
Proof.
  rewrite !step_date_split_head. cbn [strip_time day].
  apply split_head_no_separator, has_char_split_head.
Qed.

Lemma count_days_strip_time sd t d c r :
  count_days (map strip_time sd) t d c r = count_days sd t d c r.
Proof.
  revert c r. induction sd as [|step rest IH]; intros c r; [reflexivity|].
  cbn [map count_days]. rewrite step_date_strip_time.
  change (get_steps (strip_time step)) with (get_steps step).
  destruct (str_le (step_date step) d); [|apply IH].
  destruct (ge (get_steps step) (VInt t)) as [b|e]; cbn [mbind exc_bind];
    [apply IH | reflexivity].
Qed.

(** X6.  Only the part of an entry's ['day'] before the first ['T'] is
    compared with the current date: cutting the time of day off every entry
    does not change the result of the evaluation. *)
Theorem time_of_day_is_ignored (steps_data : list step_entry) (step_target : Z)
    (current_date : string) :
  check_task_completion (map strip_time steps_data) step_target current_date
  = check_task_completion steps_data step_target current_date.
Proof. unfold check_task_completion. now rewrite count_days_strip_time. Qed.

End Timestamps.

(** ** More on process_player_data *)

Section EntryStatistics.

Lemma map_VInt_inj l1 l2 : map VInt l1 = map VInt l2 -> l1 = l2.
Proof.
  revert l2. induction l1 as [|x l1 IH]; intros [|y l2]; try discriminate; [reflexivity|].
  cbn [map]. intros [= -> H]. f_equal. now apply IH.
Qed.

Lemma format_all_counts sd counts l :
  map get_steps sd = map VInt counts -> format_all sd = Ok l ->
  Forall2 (fun n s => format_steps (VInt n) = Ok s) counts l.
Proof.
  revert counts l. induction sd as [|step rest IH]; intros [|n counts] l; try discriminate.
  - intros _ [= <-]. constructor.
  - cbn [map format_all]. intros [= Hn Hrest]. rewrite Hn.
    destruct (format_steps (VInt n)) as [s|e] eqn:Hs; cbn [mbind exc_bind]; [|discriminate].
    destruct (format_all rest) as [l'|e] eqn:Hl; cbn [mbind exc_bind]; [|discriminate].
    intros [= <-]. constructor; [exact Hs | now apply IH].
Qed.

Lemma count_positive_counts sd counts n :
  map get_steps sd = map VInt counts -> count_positive sd = Ok n ->
  n = len (List.filter (Z.ltb 0) counts).
Proof.
  revert counts n. induction sd as [|step rest IH]; intros [|x counts] n; try discriminate.
  - intros _ [= <-]. reflexivity.
  - cbn [map count_positive List.filter]. intros [= Hx Hrest]. rewrite Hx.
    cbn [gt mbind exc_bind].
    destruct (count_positive rest) as [m|e] eqn:Hm; cbn [mbind exc_bind]; [|discriminate].
    intros [= <-]. rewrite (IH counts m Hrest eq_refl).
    destruct (Z.ltb 0 x); rewrite ?len_cons; lia.
Qed.

Lemma len_filter_le {A} (f : A -> bool) l : 0 <= len (List.filter f l) <= len l.
Proof.
  induction l as [|x l IH]; [unfold len; cbn; lia|].
  cbn [List.filter]. destruct (f x); rewrite !len_cons; lia.
Qed.

Lemma len_filter_pos {A} (f : A -> bool) l :
  0 < len (List.filter f l) <-> exists x, In x l /\ f x = true.
Proof.
  induction l as [|x l IH]; cbn [List.filter].
  - split; [unfold len; cbn; lia | intros (x & [] & _)].
  - destruct (f x) eqn:Hx.
    + rewrite len_cons. pose proof (len_filter_le f l). split; [|lia].
      intros _. exists x. split; [now left | exact Hx].
    + rewrite IH. split.
      * intros (y & Hy & Hfy). exists y. split; [now right | exact Hfy].
      * intros (y & [<-|Hy] & Hfy); [congruence | eauto].
Qed.

(** A day was completed exactly when the highest count is positive. *)
Lemma positive_count_iff_maximum counts m :
  maximum_of counts m -> (0 < len (List.filter (Z.ltb 0) counts) <-> 0 < m).
Proof.
  intros Hmax. rewrite len_filter_pos. destruct counts as [|x l].
  - cbn in Hmax. subst m. split; [intros (y & [] & _) | lia].
  - destruct Hmax as [Hin Hall]. rewrite Forall_forall in Hall. split.
    + intros (y & Hy & Hpos%Z.ltb_lt).
      specialize (Hall y (proj2 (list_elem_of_In _ _) Hy)). lia.
    + intros Hm. exists m. split; [exact Hin | now apply Z.ltb_lt].
Qed.

Lemma accepted_entry p u e :
  accepted p = Some (u, e) ->
  exists counts,
    raw_counts p = map VInt counts
    /\ Forall2 (fun n s => format_steps (VInt n) = Ok s) counts (entry_steps e)
    /\ total_completed e = len (List.filter (Z.ltb 0) counts).
Proof.
  unfold accepted, process_player, raw_counts. fold (username_of p).
  case_bool_decide as Hname; [discriminate|].
  destruct (format_all _) as [l|?] eqn:Hl; cbn [mbind exc_bind]; [|discriminate].
  destruct (count_positive _) as [n|?] eqn:Hcount; cbn [mbind exc_bind]; [|discriminate].
  pose proof Hcount as Hints.
  apply count_positive_ok, values_are_ints in Hints as [counts Hcounts].
  rewrite Hcounts.
  destruct (max_default_ints counts) as (m & -> & _). cbn [mbind exc_bind].
  intros [= <- <-]. cbn [entry_steps total_completed]. exists counts.
  split; [reflexivity|]. split.
  - now apply (format_all_counts _ _ _ Hcounts).
  - now apply (count_positive_counts _ _ _ Hcounts).
Qed.

(** X7.  For every aggregated player there is a record of that username
    with integer counts such that the entry holds one displayed value per
    count, each the result of [format_steps]; [total_completed] is the number
    of counts above zero, between 0 and the number of days; and a day was
    completed exactly when [highest_steps] is positive. *)
Theorem entry_statistics (players : list player) (u : string) (e : player_entry) :
  (process_player_data players).1 !! u = Some e ->
  exists p counts m,
    p ∈ players /\ username_of p = u
    /\ raw_counts p = map VInt counts
    /\ Forall2 (fun n s => format_steps (VInt n) = Ok s) counts (entry_steps e)
    /\ total_completed e = len (List.filter (Z.ltb 0) counts)
    /\ 0 <= total_completed e <= len counts
    /\ highest_steps e = VInt m
    /\ (0 < total_completed e <-> 0 < m).
Proof.
  intros (p & Hp & Ha)%process_player_data_lookup.
  destruct (accepted_entry _ _ _ Ha) as (counts & Hc & Hsteps & Htotal).
  apply accepted_inv in Ha as (-> & _ & counts' & m & Hc' & Hm & Hmax).
  assert (counts' = counts) as -> by (apply map_VInt_inj; congruence).
  exists p, counts, m. repeat split; try assumption.
  - rewrite Htotal. apply len_filter_le.
  - rewrite Htotal. apply len_filter_le.
  - rewrite Htotal. now apply positive_count_iff_maximum.
  - rewrite Htotal. now apply positive_count_iff_maximum.
Qed.

Lemma entry_statistics_witness :
  let e := {| entry_steps := ["30k+"; "100"]; total_completed := 2;
              highest_steps := VInt 45000 |} in
  (process_player_data [make_player "walker" [45000; 100]]).1 !! "walker" = Some e
  /\ exists p counts m,
       p ∈ [make_player "walker" [45000; 100]] /\ username_of p = "walker"
       /\ raw_counts p = map VInt counts
       /\ Forall2 (fun n s => format_steps (VInt n) = Ok s) counts (entry_steps e)
       /\ total_completed e = len (List.filter (Z.ltb 0) counts)
       /\ 0 <= total_completed e <= len counts
       /\ highest_steps e = VInt m
       /\ (0 < total_completed e <-> 0 < m).
Proof.
  intros e.
  assert (H : (process_player_data [make_player "walker" [45000; 100]]).1 !! "walker"
              = Some e) by (vm_compute; reflexivity).
  split; [exact H | exact (entry_statistics _ _ _ H)].
Defined.

End EntryStatistics.

Section BatchComposition.

(** X8.  Processing a batch with one more record at its end is processing
    the batch and then storing that record under its username, replacing an
    earlier entry of the same username (the last record wins); a record
    without username or whose processing raises leaves the output as it
    is. *)
Theorem process_player_data_last_record (players : list player) (p : player) :
  (process_player_data (players ++ [p])).1 =
  match process_player p with
  | Ok (Some (u, e)) => <[u := e]> (process_player_data players).1
  | _ => (process_player_data players).1
  end.
Proof.
  rewrite !process_player_data_fst, omap_app.
  change (omap accepted [p])
    with (match accepted p with
          | Some x => [x]
          | None => []
          end).
  unfold accepted.
  destruct (process_player p) as [[[u e]|]|err]; rewrite ?app_nil_r; try reflexivity.
  now rewrite reverse_snoc.
Qed.

Lemma process_players_snd i (players : list player) acc out :
  (process_players i players acc out).2 = out ++ player_lines i players.
Proof.
  revert i acc out. induction players as [|p rest IH]; intros i acc out.
  - cbn. now rewrite app_nil_r.
  - cbn [process_players player_lines]. unfold player_line.
    destruct (process_player p) as [[[u e]|]|err]; rewrite IH.
    + destruct (Z.eqb _ _); now rewrite <- ?app_assoc.
    + now rewrite <- app_assoc.
    + now rewrite <- app_assoc.
Qed.

Lemma process_player_None p : process_player p = Ok None <-> username_of p = "".
Proof.
  split; [|apply process_player_nameless].
  unfold process_player. fold (username_of p).
  case_bool_decide as Hname; [easy|].
  destruct (format_all _); cbn [mbind exc_bind]; [|discriminate].
  destruct (count_positive _); cbn [mbind exc_bind]; [|discriminate].
  destruct (max_default _ _); cbn [mbind exc_bind]; discriminate.
Qed.

Lemma skip_in_player_lines i (players : list player) j :
  SkippingNoUsername j ∈ player_lines i players <->
  exists k p, players !! k = Some p /\ j = i + Z.of_nat k /\ username_of p = "".
Proof.
  revert i. induction players as [|p rest IH]; intros i; cbn [player_lines].
  - split; [intros H; now apply elem_of_nil in H | intros (k & q & H & _); discriminate H].
  - rewrite elem_of_app, IH. unfold player_line. split.
    + intros [H|(k & q & Hk & -> & Hq)].
      * destruct (process_player p) as [[[u e]|]|err] eqn:Hp.
        -- destruct (Z.eqb _ _); [|now apply elem_of_nil in H].
           apply list_elem_of_singleton in H. discriminate H.
        -- apply list_elem_of_singleton in H. injection H as ->.
           exists 0%nat, p. split; [reflexivity|]. split; [lia|].
           now apply process_player_None.
        -- apply list_elem_of_singleton in H. discriminate H.
      * exists (S k), q. split; [exact Hk|]. split; [lia | exact Hq].
    + intros ([|k] & q & Hk & -> & Hq).
      * injection Hk as ->. left. apply process_player_None in Hq. rewrite Hq.
        apply list_elem_of_singleton. f_equal. lia.
      * right. exists k, q. split; [exact Hk|]. split; [lia | exact Hq].
Qed.

Lemma error_in_player_lines i (players : list player) j err :
  ErrorProcessing j err ∈ player_lines i players <->
  exists k p, players !! k = Some p /\ j = i + Z.of_nat k /\ process_player p = Raise err.
Proof.
  revert i. induction players as [|p rest IH]; intros i; cbn [player_lines].
  - split; [intros H; now apply elem_of_nil in H | intros (k & q & H & _); discriminate H].
  - rewrite elem_of_app, IH. unfold player_line. split.
    + intros [H|(k & q & Hk & -> & Hq)].
      * destruct (process_player p) as [[[u e]|]|err'] eqn:Hp.
        -- destruct (Z.eqb _ _); [|now apply elem_of_nil in H].
           apply list_elem_of_singleton in H. discriminate H.
        -- apply list_elem_of_singleton in H. discriminate H.
        -- apply list_elem_of_singleton in H. injection H as -> ->.
           exists 0%nat, p. split; [reflexivity|]. split; [lia | exact Hp].
      * exists (S k), q. split; [exact Hk|]. split; [lia | exact Hq].
    + intros ([|k] & q & Hk & -> & Hq).
      * injection Hk as ->. left. rewrite Hq.
        apply list_elem_of_singleton. f_equal. lia.
      * right. exists k, q. split; [exact Hk|]. split; [lia | exact Hq].
Qed.

(** X9.  The console of [process_player_data] reports exactly the records
    that are not stored, each with its position counted from 1: a line
    "Skipping player j" for the records without username, a line "Error
    processing player j" for the records whose processing raises. *)
Theorem dropped_records_are_reported (players : list player) (j : Z) :
  (SkippingNoUsername j ∈ (process_player_data players).2 <->
     exists k p, players !! k = Some p /\ j = 1 + Z.of_nat k /\ username_of p = "")
  /\ (forall err,
        ErrorProcessing j err ∈ (process_player_data players).2 <->
        exists k p, players !! k = Some p /\ j = 1 + Z.of_nat k
                    /\ process_player p = Raise err).
Proof.
  unfold process_player_data.
  pose proof (process_players_snd 1 players ∅ [StartProcessing (len players)]) as Hsnd.
  destruct (process_players 1 players ∅ [StartProcessing (len players)]) as [m out].
  cbn [snd] in *. subst out. split; [|intros err].
  - rewrite <- skip_in_player_lines, !elem_of_app. split; [|tauto].
    intros [[H|H]|H]; [| exact H |]; apply list_elem_of_singleton in H; discriminate H.
  - rewrite <- error_in_player_lines, !elem_of_app. split; [|tauto].
    intros [[H|H]|H]; [| exact H |]; apply list_elem_of_singleton in H; discriminate H.
Qed.

End BatchComposition.

(** ** More on display_results *)

Section SortedRows.

Lemma insert_by_id_perm x l : insert_by_id x l ≡ₚ x :: l.
Proof.
  induction l as [|y l IH]; [reflexivity|]. cbn [insert_by_id].
  destruct (Z.leb _ _); [reflexivity|]. rewrite IH. apply Permutation_swap.
Qed.

Lemma sorted_by_id_perm l : sorted_by_id l ≡ₚ l.
Proof.
  unfold sorted_by_id. induction l as [|x l IH]; [reflexivity|].
  cbn [foldr]. now rewrite insert_by_id_perm, IH.
Qed.

Lemma insert_by_id_sorted x l :
  StronglySorted id_le l -> StronglySorted id_le (insert_by_id x l).
Proof.
  induction 1 as [|y l Hsorted IH Hall]; cbn [insert_by_id].
  - repeat constructor.
  - fold (id_of x) (id_of y). destruct (Z.leb_spec (id_of x) (id_of y)) as [Hle|Hgt].
    + constructor; [now constructor|]. constructor; [exact Hle|].
      eapply Forall_impl; [exact Hall|]. unfold id_le. intros z Hz. lia.
    + constructor; [exact IH|].
      rewrite insert_by_id_perm. constructor; [unfold id_le; lia | exact Hall].
Qed.

Lemma sorted_by_id_sorted l : StronglySorted id_le (sorted_by_id l).
Proof.
  unfold sorted_by_id. induction l as [|x l IH]; [constructor|].
  cbn [foldr]. now apply insert_by_id_sorted.
Qed.

Lemma StronglySorted_map_id l :
  StronglySorted id_le l -> StronglySorted Z.le (map id_of l).
Proof.
  induction 1 as [|y l Hsorted IH Hall]; cbn [map]; constructor; [exact IH|].
  apply Forall_map. exact Hall.
Qed.

(** The rows follow the players they are made from, one row each. *)
Lemma player_rows_shape players game_dates t d data :
  player_rows players game_dates t d = Ok data ->
  Forall2 (fun x row => row_username row = fst x /\ row_id row = id_of x
                        /\ row_steps row = pad (snd (snd x)) (length game_dates))
          players data.
Proof.
  revert data. induction players as [|[u [i steps]] rest IH]; intros data;
    cbn [player_rows].
  - intros [= <-]. constructor.
  - unfold player_row at 1.
    destruct (evaluation_input _ 0 game_dates) as [input|e]; cbn [mbind exc_bind];
      [|discriminate].
    destruct (check_task_completion input t d) as [c|e]; cbn [mbind exc_bind];
      [|discriminate].
    destruct (player_rows rest game_dates t d) as [l|e]; cbn [mbind exc_bind];
      [|discriminate].
    intros [= <-]. constructor; [now repeat split | now apply IH].
Qed.

Lemma our_players_spec (pd : gmap string player_entry) ui :
  (our_players pd ui).1
  = omap (fun x => (fun e => (fst x, (roster_id (snd x), entry_steps e))) <$> pd !! fst x) ui
  /\ len (our_players pd ui).1
     + len (List.filter is_user_not_found (our_players pd ui).2) = len ui
  /\ (forall e, e ∈ (our_players pd ui).2 ->
        exists u, e = UserNotFound u /\ u ∈ ui.*1 /\ pd !! u = None).
Proof.
  induction ui as [|[u info] rest (IH1 & IH2 & IH3)].
  - repeat split. intros e H. now apply elem_of_nil in H.
  - cbn [our_players]. destruct (our_players pd rest) as [found out]. cbn [fst snd] in *.
    change (omap ?f ((u, info) :: rest))
      with (match f (u, info) with
            | Some y => y :: omap f rest
            | None => omap f rest
            end).
    cbn [fst snd]. destruct (pd !! u) as [e|] eqn:Hu; cbn [fmap option_fmap option_map fst snd].
    + split; [now rewrite IH1|]. split; [rewrite !len_cons; lia|].
      intros ev Hev. destruct (IH3 ev Hev) as (v & -> & Hv & Hnone).
      exists v. repeat split; [now apply elem_of_cons; right | exact Hnone].
    + split; [exact IH1|]. split; [cbn [List.filter is_user_not_found]; rewrite !len_cons; lia|].
      intros ev [->|Hev]%elem_of_cons.
      * exists u. repeat split; [now apply elem_of_cons; left | exact Hu].
      * destruct (IH3 ev Hev) as (v & -> & Hv & Hnone).
        exists v. repeat split; [now apply elem_of_cons; right | exact Hnone].
Qed.

End SortedRows.

Section SaveToCsv.

Lemma foldr_max_le l n : (foldr Nat.max 0 l <= n)%nat <-> Forall (fun x => (x <= n)%nat) l.
Proof.
  induction l as [|x l IH]; cbn [foldr].
  - split; [constructor | lia].
  - rewrite Forall_cons, <- IH. lia.
Qed.

Lemma data_frame_ok data hs table :
  data_frame data hs = Ok table ->
  table = {| headers := hs; rows := data |}
  /\ Forall (fun r => (row_cells r <= length hs)%nat) data.
Proof.
  destruct data as [|r data]; cbn [data_frame].
  - intros [= <-]. split; [reflexivity | constructor].
  - destruct (Nat.eqb_spec (foldr Nat.max 0%nat (map row_cells (r :: data))) (length hs))
      as [Heq|_]; [|discriminate].
    intros [= <-]. split; [reflexivity|].
    apply Forall_map with (f := row_cells) (P := fun n => (n <= length hs)%nat).
    apply foldr_max_le. lia.
Qed.

Lemma data_frame_fits data hs :
  Forall (fun r => row_cells r = length hs) data ->
  data_frame data hs = Ok {| headers := hs; rows := data |}.
Proof.
  intros H. destruct data as [|r data]; [reflexivity|]. cbn [data_frame].
  destruct (Nat.eqb_spec (foldr Nat.max 0%nat (map row_cells (r :: data))) (length hs))
    as [_|Hne]; [reflexivity|].
  exfalso. apply Hne. apply Nat.le_antisymm.
  - apply foldr_max_le, Forall_map. eapply Forall_impl; [exact H|]. cbn. lia.
  - apply Forall_cons in H as [<- _]. cbn [map foldr]. lia.
Qed.

Lemma data_frame_wide data hs :
  Exists (fun r => (length hs < row_cells r)%nat) data ->
  data_frame data hs = Raise ValueError.
Proof.
  intros H. destruct (data_frame data hs) as [table|e] eqn:Hframe.
  - apply data_frame_ok in Hframe as [_ Hall]. exfalso.
    apply Exists_exists in H as (r & Hr & Hwide).
    rewrite Forall_forall in Hall. specialize (Hall r Hr). lia.
  - destruct data as [|r data]; [discriminate Hframe|]. cbn [data_frame] in Hframe.
    destruct (Nat.eqb _ _); [discriminate Hframe | symmetry; exact Hframe].
Qed.

End SaveToCsv.

Section ReportRows.

Lemma display_results_saved pd ui game_dates t d out table :
  display_results pd ui game_dates t d = (out, Ok (Some table)) ->
  (our_players pd ui).1 <> []
  /\ player_rows (sorted_by_id (our_players pd ui).1) game_dates t d = Ok (rows table)
  /\ out = (our_players pd ui).2 ++ [StepTargetLine t; DataSaved]
  /\ length (headers table) = (length game_dates + 3)%nat
  /\ Forall (fun r => length (row_steps r) = length game_dates) (rows table).
Proof.
  unfold display_results. case_bool_decide; [discriminate|].
  destruct (our_players pd ui) as [found lines]. cbn [fst snd].
  case_bool_decide as Hfound; [discriminate|].
  destruct (player_rows _ _ _ _) as [data|e] eqn:Hrows; [|discriminate].
  unfold save_to_csv.
  destruct (data_frame data _) as [frame|e] eqn:Hframe; cbn [mbind exc_bind];
    [|discriminate].
  intros [= <- <-]. apply data_frame_ok in Hframe as [-> Hall]. cbn [rows headers] in *.
  assert (Hhead : length (["ID"; "Username"]
                     ++ map (fun date => if contains "T" date then split_head "T" date else date)
                            game_dates ++ ["Task Status"]) = (length game_dates + 3)%nat).
  { rewrite !length_app, length_map. cbn [length]. lia. }
  split; [exact Hfound|]. split; [reflexivity|]. split; [now rewrite <- app_assoc|].
  split; [exact Hhead|].
  apply player_rows_shape in Hrows. rewrite Forall_forall in Hall. apply Forall_forall.
  intros r Hr. destruct (list_elem_of_lookup_1 _ _ Hr) as [k Hk].
  destruct (Forall2_lookup_r _ _ _ _ _ Hrows Hk) as (x & _ & _ & _ & Hsteps).
  specialize (Hall r Hr). rewrite Hhead in Hall. unfold row_cells in Hall.
  assert (length game_dates <= length (row_steps r))%nat; [|lia].
  rewrite Hsteps. unfold pad. rewrite length_app, length_replicate. lia.
Qed.

Lemma rows_of_sorted found game_dates t d data :
  player_rows (sorted_by_id found) game_dates t d = Ok data ->
  map row_id data = map id_of (sorted_by_id found)
  /\ map row_username data = map fst (sorted_by_id found)
  /\ length data = length found.
Proof.
  intros H%player_rows_shape. split; [|split].
  - induction H as [|x row l l' (_ & Hid & _) _ IH]; [reflexivity|].
    cbn [map]. now rewrite Hid, IH.
  - induction H as [|x row l l' (Hname & _) _ IH]; [reflexivity|].
    cbn [map]. now rewrite Hname, IH.
  - rewrite <- (Forall2_length _ _ _ H). apply Permutation_length, sorted_by_id_perm.
Qed.

(** The usernames and IDs of the rows are those of the roster users found
    among the players. *)
Lemma rows_of_found_users pd ui game_dates t d data :
  player_rows (sorted_by_id (our_players pd ui).1) game_dates t d = Ok data ->
  map (fun row => (row_username row, row_id row)) data ≡ₚ found_users pd ui.
Proof.
  intros H%player_rows_shape.
  assert (Hmap : map (fun row => (row_username row, row_id row)) data
                 = map (fun x => (fst x, id_of x)) (sorted_by_id (our_players pd ui).1)).
  { induction H as [|x row l l' (Hname & Hid & _) _ IH]; [reflexivity|].
    cbn [map]. now rewrite Hname, Hid, IH. }
  rewrite Hmap.
  change (map (fun x => (fst x, id_of x)) (sorted_by_id (our_players pd ui).1))
    with ((fun x : string * (Z * list string) => (fst x, id_of x))
            <$> sorted_by_id (our_players pd ui).1).
  rewrite sorted_by_id_perm.
  destruct (our_players_spec pd ui) as (-> & _ & _). unfold found_users.
  clear. induction ui as [|[u info] rest IH]; [reflexivity|].
  change (omap ?f ((u, info) :: rest))
    with (match f (u, info) with
          | Some y => y :: omap f rest
          | None => omap f rest
          end).
  cbn [fst snd]. destruct (pd !! u) as [e|]; cbn [fmap option_fmap option_map].
  - rewrite fmap_cons. cbn [fst snd id_of]. now rewrite IH.
  - exact IH.
Qed.

Lemma found_users_spec pd ui u i :
  (u, i) ∈ found_users pd ui
  <-> exists info, (u, info) ∈ ui /\ i = roster_id info /\ is_Some (pd !! u).
Proof.
  unfold found_users. rewrite list_elem_of_omap. split.
  - intros ([w info] & Hw & Hf). cbn [fst snd] in Hf.
    destruct (pd !! w) as [e|] eqn:He; [|discriminate Hf]. injection Hf as <- <-.
    exists info. rewrite He. now repeat split.
  - intros (info & Hin & -> & [e He]). exists (u, info). split; [exact Hin|].
    cbn [fst snd]. now rewrite He.
Qed.

(** A row of the saved table is made from the entry of its player. *)
Lemma saved_row_of_entry pd ui game_dates t d out table row :
  display_results pd ui game_dates t d = (out, Ok (Some table)) ->
  row ∈ rows table ->
  exists e, pd !! row_username row = Some e
            /\ row_steps row = pad (entry_steps e) (length game_dates)
            /\ length (row_steps row) = length game_dates.
Proof.
  intros (_ & Hrows & _ & _ & Hfit)%display_results_saved Hrow.
  rewrite Forall_forall in Hfit. specialize (Hfit row Hrow).
  apply player_rows_shape in Hrows.
  destruct (list_elem_of_lookup_1 _ _ Hrow) as [k Hk].
  destruct (Forall2_lookup_r _ _ _ _ _ Hrows Hk)
    as ([u [i steps]] & Hx & Hname & _ & Hsteps).
  assert (Hin : (u, (i, steps)) ∈ (our_players pd ui).1).
  { rewrite <- sorted_by_id_perm. now apply list_elem_of_lookup_2 in Hx. }
  destruct (our_players_spec pd ui) as (Hspec & _ & _). rewrite Hspec in Hin.
  apply list_elem_of_omap in Hin as ([w info] & _ & Hf). cbn [fst snd] in Hf.
  destruct (pd !! w) as [e|] eqn:He; [|discriminate Hf]. injection Hf as <- <- <-.
  cbn [fst snd] in *. exists e. rewrite Hname. now repeat split.
Qed.

(** X10.  When [display_results] saves a table, its rows are in ascending
    order of their ID, the table is not empty, and the rows carry, up to
    their order, exactly the usernames of the roster users found among the
    aggregated players, each with the ID the roster gives that user. *)
Theorem report_rows_sorted_by_id (pd : gmap string player_entry)
    (ui : list (string * roster_entry)) (game_dates : list string) (t : Z) (d : string)
    (out : list event) (table : csv) :
  display_results pd ui game_dates t d = (out, Ok (Some table)) ->
  StronglySorted Z.le (map row_id (rows table))
  /\ rows table <> []
  /\ map (fun row => (row_username row, row_id row)) (rows table) ≡ₚ found_users pd ui
  /\ (forall row, row ∈ rows table ->
        exists info, (row_username row, info) ∈ ui /\ row_id row = roster_id info
                     /\ is_Some (pd !! row_username row))
  /\ (forall u info, (u, info) ∈ ui -> is_Some (pd !! u) ->
        exists row, row ∈ rows table /\ row_username row = u /\ row_id row = roster_id info).
Proof.
  intros (Hne & Hrows & _ & _)%display_results_saved.
  destruct (rows_of_sorted _ _ _ _ _ Hrows) as (Hids & _ & Hlen).
  pose proof (rows_of_found_users _ _ _ _ _ _ Hrows) as Hperm.
  split; [|split; [|split; [|split]]].
  - rewrite Hids. apply StronglySorted_map_id, sorted_by_id_sorted.
  - intros Hnil. rewrite Hnil in Hlen. destruct (our_players pd ui).1; [now apply Hne|].
    discriminate Hlen.
  - exact Hperm.
  - intros row Hrow. apply found_users_spec. rewrite <- Hperm.
    apply list_elem_of_fmap. now exists row.
  - intros u info Hin Hsome.
    assert (H : (u, roster_id info) ∈ found_users pd ui).
    { apply found_users_spec. now exists info. }
    rewrite <- Hperm in H. apply list_elem_of_fmap in H as (row & [= Hu Hi] & Hrow).
    now exists row.
Qed.

(** X11.  When [display_results] saves a table, the header has three
    columns more than there are campaign days and every row has exactly one
    step value per campaign day: the displayed values of its player followed
    by as many ['-'] as the player has fewer values than there are days.  A
    table is only saved when no roster user found among the players has more
    values than there are days. *)
Theorem report_rows_padded (pd : gmap string player_entry)
    (ui : list (string * roster_entry)) (game_dates : list string) (t : Z) (d : string)
    (out : list event) (table : csv) :
  display_results pd ui game_dates t d = (out, Ok (Some table)) ->
  length (headers table) = (length game_dates + 3)%nat
  /\ (forall row, row ∈ rows table ->
        exists e, pd !! row_username row = Some e
                  /\ row_steps row
                     = entry_steps e
                       ++ replicate (length game_dates - length (entry_steps e)) "-"
                  /\ length (row_steps row) = length game_dates
                  /\ row_cells row = length (headers table))
  /\ ~ wider_than_header pd ui game_dates.
Proof.
  intros H. pose proof (display_results_saved _ _ _ _ _ _ _ H) as (_ & Hrows & _ & Hhead & _).
  split; [exact Hhead|]. split.
  - intros row Hrow. destruct (saved_row_of_entry _ _ _ _ _ _ _ _ H Hrow) as (e & He & Hs & Hl).
    exists e. repeat split; [exact He | exact Hs | exact Hl |].
    unfold row_cells. rewrite Hhead, Hl. lia.
  - intros (u & info & e & Hin & He & Hwide).
    pose proof (rows_of_found_users _ _ _ _ _ _ Hrows) as Hperm.
    assert (Hu : (u, roster_id info) ∈ found_users pd ui).
    { apply found_users_spec. exists info. rewrite He. now repeat split. }
    rewrite <- Hperm in Hu. apply list_elem_of_fmap in Hu as (row & [= Hname _] & Hrow).
    destruct (saved_row_of_entry _ _ _ _ _ _ _ _ H Hrow) as (e' & He' & Hs & Hl).
    rewrite <- Hname, He in He'. injection He' as <-.
    rewrite Hs in Hl. unfold pad in Hl. rewrite length_app, length_replicate in Hl. lia.
Qed.

(** X12.  When [display_results] saves a table, every roster user gives
    either a row of the table or a warning "User .. not found": their
    numbers add up to the size of the roster, and a warning is only printed
    for a roster user who is not among the aggregated players. *)
Theorem roster_users_row_or_warning (pd : gmap string player_entry)
    (ui : list (string * roster_entry)) (game_dates : list string) (t : Z) (d : string)
    (out : list event) (table : csv) :
  display_results pd ui game_dates t d = (out, Ok (Some table)) ->
  len (rows table) + len (List.filter is_user_not_found out) = len ui
  /\ forall u, UserNotFound u ∈ out -> u ∈ ui.*1 /\ pd !! u = None.
Proof.
  intros (_ & Hrows & -> & _)%display_results_saved.
  destruct (rows_of_sorted _ _ _ _ _ Hrows) as (_ & _ & Hlen).
  destruct (our_players_spec pd ui) as (_ & Hcount & Hwarn). split.
  - rewrite List.filter_app. cbn [List.filter is_user_not_found]. rewrite app_nil_r.
    unfold len in *. rewrite Hlen. exact Hcount.
  - intros u [H|H]%elem_of_app.
    + destruct (Hwarn _ H) as (v & [= <-] & Hv & Hnone). now split.
    + apply elem_of_cons in H as [H|H]; [discriminate H|].
      apply list_elem_of_singleton in H. discriminate H.
Qed.

End ReportRows.

Section ReportExample.

Example report_value :
  report = ([UserNotFound "ghost"; StepTargetLine 10000; DataSaved],
            Ok (Some {| headers := ["ID"; "Username"; "2024-01-01"; "2024-01-02";
                                    "2024-01-03"; "Task Status"];
                        rows := [ {| row_id := 2; row_username := "alice";
                                     row_steps := ["5,000"; "20,000"; "-"];
                                     row_status := "Failed(1/3)" |};
                                  {| row_id := 7; row_username := "walker";
                                     row_steps := ["12,000"; "8,000"; "-"];
                                     row_status := "Failed(1/3)" |} ] |})).
Proof. vm_compute. reflexivity. Qed.

(** With a row wider than the header nothing is saved: the call ends in the
    [ValueError] of [save_to_csv], after the warning and the target line. *)
Example ragged_report_value :
  ragged_report = ([UserNotFound "ghost"; StepTargetLine 10000], Raise ValueError).
Proof. vm_compute. reflexivity. Qed.

Lemma report_saved : exists out table, report = (out, Ok (Some table)).
Proof. eexists _, _. vm_compute. reflexivity. Defined.

Lemma report_rows_sorted_by_id_witness :
  exists out table,
    report = (out, Ok (Some table))
    /\ StronglySorted Z.le (map row_id (rows table))
    /\ rows table <> []
    /\ map (fun row => (row_username row, row_id row)) (rows table)
       ≡ₚ found_users (process_player_data report_players).1 report_roster
    /\ (forall row, row ∈ rows table ->
          exists info, (row_username row, info) ∈ report_roster
                       /\ row_id row = roster_id info
                       /\ is_Some ((process_player_data report_players).1 !! row_username row))
    /\ (forall u info, (u, info) ∈ report_roster ->
          is_Some ((process_player_data report_players).1 !! u) ->
          exists row, row ∈ rows table /\ row_username row = u
                      /\ row_id row = roster_id info).
Proof.
  destruct report_saved as (out & table & H). exists out, table.
  split; [exact H | exact (report_rows_sorted_by_id _ _ _ _ _ _ _ H)].
Defined.

Lemma report_rows_padded_witness :
  exists out table,
    report = (out, Ok (Some table))
    /\ length (headers table) = (length report_dates + 3)%nat
    /\ (forall row, row ∈ rows table ->
          exists e, (process_player_data report_players).1 !! row_username row = Some e
                    /\ row_steps row
                       = entry_steps e
                         ++ replicate (length report_dates - length (entry_steps e)) "-"
                    /\ length (row_steps row) = length report_dates
                    /\ row_cells row = length (headers table))
    /\ ~ wider_than_header (process_player_data report_players).1 report_roster report_dates.
Proof.
  destruct report_saved as (out & table & H). exists out, table.
  split; [exact H | exact (report_rows_padded _ _ _ _ _ _ _ H)].
Defined.

Lemma roster_users_row_or_warning_witness :
  exists out table,
    report = (out, Ok (Some table))
    /\ len (rows table) + len (List.filter is_user_not_found out) = len report_roster
    /\ forall u, UserNotFound u ∈ out ->
         u ∈ report_roster.*1 /\ (process_player_data report_players).1 !! u = None.
Proof.
  destruct report_saved as (out & table & H). exists out, table.
  split; [exact H | exact (roster_users_row_or_warning _ _ _ _ _ _ _ H)].
Defined.

End ReportExample.

(** ** From process_player_data to display_results *)

Section Pipeline.

Lemma readable_placeholder : readable "-".
Proof. now exists 0. Qed.

(** Whatever [format_steps] shows for an integer can be read back. *)
Lemma format_steps_int_readable n s : format_steps (VInt n) = Ok s -> readable s.
Proof.
  destruct (Z.eq_dec n 0) as [->|Hn]; [intros [= <-]; apply readable_placeholder|].
  destruct (Z.le_gt_cases 30000 n) as [Hcap|Hlow].
  - rewrite format_steps_capped by exact Hcap. intros [= <-]. now exists 3030000.
  - rewrite format_steps_below_cap by lia. intros [= <-].
    destruct n as [|p|p]; [contradiction| |].
    + exists (Z.pos p). unfold readable.
      rewrite bool_decide_eq_true_2 by (apply format_comma_not_placeholder; lia).
      apply steps_to_int_format_comma. lia.
    + exists (Z.pos p).
      rewrite bool_decide_eq_true_2 by apply format_comma_negative_not_placeholder.
      apply steps_to_int_negative.
Qed.

Lemma comparable_steps_readable steps i :
  Forall readable steps -> exists z, comparable_steps steps i = Ok z.
Proof.
  intros Hall. unfold comparable_steps. destruct (steps !! i) as [s|] eqn:Hs; [|eauto].
  rewrite Forall_forall in Hall. apply (Hall s). now apply list_elem_of_lookup_2 in Hs.
Qed.

Lemma evaluation_input_readable steps i game_dates :
  Forall readable steps -> exists input, evaluation_input steps i game_dates = Ok input.
Proof.
  intros Hall. revert i. induction game_dates as [|date rest IH]; intros i;
    cbn [evaluation_input]; [eauto|].
  destruct (comparable_steps_readable steps i Hall) as [z ->].
  destruct (IH (S i)) as [l ->]. cbn. eauto.
Qed.

Lemma player_row_readable ident u steps game_dates t d :
  Forall readable steps -> exists row, player_row ident u steps game_dates t d = Ok row.
Proof.
  intros Hall. unfold player_row.
  assert (Hpad : Forall readable (pad steps (length game_dates))).
  { unfold pad. apply Forall_app. split; [exact Hall|].
    apply Forall_replicate, readable_placeholder. }
  destruct (evaluation_input_readable _ 0 game_dates Hpad) as [input Hinput].
  rewrite Hinput. cbn [mbind exc_bind].
  pose proof (evaluation_input_numeric _ _ _ _ d Hinput) as Hnum.
  unfold check_task_completion. rewrite count_days_filters by exact Hnum.
  cbn [mbind exc_bind]. destruct (Z.eqb _ 0); [cbn; eauto|].
  destruct (Z.eqb _ _); cbn; eauto.
Qed.

Lemma player_rows_readable players game_dates t d :
  Forall (fun x => Forall readable (snd (snd x))) players ->
  exists data, player_rows players game_dates t d = Ok data.
Proof.
  induction 1 as [|[u [i steps]] rest Hx _ [data IH]]; cbn [player_rows]; [eauto|].
  destruct (player_row_readable i u steps game_dates t d Hx) as [row ->].
  rewrite IH. cbn. eauto.
Qed.

(** A report over entries that can be read back ends in the [ValueError] of
    [save_to_csv] when a row is wider than the header, and returns
    otherwise. *)
Lemma display_results_readable (pd : gmap string player_entry) ui game_dates t d :
  (forall u e, pd !! u = Some e -> Forall readable (entry_steps e)) ->
  (wider_than_header pd ui game_dates
   /\ display_results pd ui game_dates t d
      = ((our_players pd ui).2 ++ [StepTargetLine t], Raise ValueError))
  \/ (~ wider_than_header pd ui game_dates
      /\ exists out table, display_results pd ui game_dates t d = (out, Ok table)).
Proof.
  intros Hpd. unfold display_results, wider_than_header.
  pose proof (our_players_spec pd ui) as (Hspec & _ & _).
  assert (Hfound : forall u i steps, (u, (i, steps)) ∈ (our_players pd ui).1 <->
            exists info e, (u, info) ∈ ui /\ pd !! u = Some e
                           /\ i = roster_id info /\ steps = entry_steps e).
  { intros u i steps. rewrite Hspec, list_elem_of_omap. split.
    - intros ([w info] & Hw & Hf). cbn [fst snd] in Hf.
      destruct (pd !! w) as [e|] eqn:He; [|discriminate Hf]. injection Hf as <- <- <-.
      now exists info, e.
    - intros (info & e & Hin & He & -> & ->). exists (u, info). split; [exact Hin|].
      cbn [fst snd]. now rewrite He. }
  clear Hspec. case_bool_decide as Hempty.
  { right. split; [|eauto]. intros (u & info & e & _ & He & _). subst pd.
    now rewrite lookup_empty in He. }
  destruct (our_players pd ui) as [found lines]. cbn [fst snd] in *.
  case_bool_decide as Hnil.
  { right. split; [|eauto]. intros (u & info & e & Hin & He & _).
    assert (H : (u, (roster_id info, entry_steps e)) ∈ found)
      by (apply Hfound; now exists info, e).
    rewrite Hnil in H. now apply elem_of_nil in H. }
  destruct (player_rows_readable (sorted_by_id found) game_dates t d) as [data Hrows].
  { rewrite sorted_by_id_perm. apply Forall_forall.
    intros [u [i steps]] (info & e & _ & He & _ & ->)%Hfound. now apply (Hpd u). }
  rewrite Hrows. apply player_rows_shape in Hrows. unfold save_to_csv.
  set (hs := ["ID"; "Username"] ++ _ ++ ["Task Status"]).
  assert (Hhead : length hs = (length game_dates + 3)%nat).
  { unfold hs. rewrite !length_app, length_map. cbn [length]. lia. }
  assert (Hwide : (exists u info e, (u, info) ∈ ui /\ pd !! u = Some e
                                    /\ (length game_dates < length (entry_steps e))%nat)
                  <-> Exists (fun r => (length hs < row_cells r)%nat) data).
  { rewrite Exists_exists. split.
    - intros (u & info & e & Hin & He & Hlt).
      assert (H : (u, (roster_id info, entry_steps e)) ∈ sorted_by_id found).
      { rewrite sorted_by_id_perm. apply Hfound. now exists info, e. }
      destruct (list_elem_of_lookup_1 _ _ H) as [k Hk].
      destruct (Forall2_lookup_l _ _ _ _ _ Hrows Hk) as (row & Hrow & _ & _ & Hsteps).
      exists row. split; [now apply list_elem_of_lookup_2 in Hrow|].
      cbn [fst snd] in Hsteps. unfold row_cells. rewrite Hhead, Hsteps. unfold pad.
      rewrite length_app. lia.
    - intros (row & Hrow & Hlt).
      destruct (list_elem_of_lookup_1 _ _ Hrow) as [k Hk].
      destruct (Forall2_lookup_r _ _ _ _ _ Hrows Hk)
        as ([u [i steps]] & Hx & _ & _ & Hsteps).
      apply list_elem_of_lookup_2 in Hx. rewrite sorted_by_id_perm in Hx.
      apply Hfound in Hx as (info & e & Hin & He & _ & ->).
      exists u, info, e. split; [exact Hin|]. split; [exact He|].
      cbn [fst snd] in Hsteps. unfold row_cells in Hlt. rewrite Hhead, Hsteps in Hlt.
      unfold pad in Hlt. rewrite length_app, length_replicate in Hlt. lia. }
  rewrite Hwide.
  destruct (decide (Exists (fun r => (length hs < row_cells r)%nat) data)) as [Hyes|Hno].
  - left. split; [exact Hyes|]. now rewrite data_frame_wide.
  - right. split; [exact Hno|]. rewrite data_frame_fits; [cbn [mbind exc_bind]; eauto|].
    apply Forall_forall. intros row Hrow.
    assert (~ (length hs < row_cells row)%nat).
    { intros Hlt. apply Hno, Exists_exists. now exists row. }
    destruct (list_elem_of_lookup_1 _ _ Hrow) as [k Hk].
    destruct (Forall2_lookup_r _ _ _ _ _ Hrows Hk) as (x & _ & _ & _ & Hsteps).
    assert (length game_dates <= length (row_steps row))%nat.
    { rewrite Hsteps. unfold pad. rewrite length_app, length_replicate. lia. }
    unfold row_cells in *. lia.
Qed.

Lemma aggregated_entries_readable players u e :
  (process_player_data players).1 !! u = Some e -> Forall readable (entry_steps e).
Proof.
  intros (p & _ & Ha)%process_player_data_lookup.
  destruct (accepted_entry _ _ _ Ha) as (counts & _ & Hsteps & _).
  induction Hsteps as [|n s counts l Hs _ IH]; constructor; [|exact IH].
  now apply (format_steps_int_readable n).
Qed.

(** X13.  On the output of [process_player_data], whatever the records,
    the roster, the campaign days, the target and the date are, the
    conversion and the evaluation of [display_results] never raise: every
    displayed value of a stored player can be converted back to an integer.
    The call ends in an exception exactly when a roster user found among the
    players has more step values than there are campaign days; the
    exception is then the [ValueError] of [save_to_csv], raised after the
    warnings and the line with the step target, and nothing is saved. *)
Theorem report_raises_on_wide_rows_only (players : list player)
    (ui : list (string * roster_entry)) (game_dates : list string) (t : Z) (d : string) :
  (wider_than_header (process_player_data players).1 ui game_dates ->
     display_results (process_player_data players).1 ui game_dates t d
     = ((our_players (process_player_data players).1 ui).2 ++ [StepTargetLine t],
        Raise ValueError))
  /\ (~ wider_than_header (process_player_data players).1 ui game_dates ->
        exists out table,
          display_results (process_player_data players).1 ui game_dates t d
          = (out, Ok table)).
Proof.
  destruct (display_results_readable (process_player_data players).1 ui game_dates t d)
    as [[Hwide Hres]|[Hfit Hres]].
  - intros u e. apply aggregated_entries_readable.
  - split; [intros _; exact Hres | intros Hno; contradiction].
  - split; [intros Hyes; contradiction | intros _; exact Hres].
Qed.

Lemma ragged_report_wider :
  wider_than_header (process_player_data ragged_players).1 report_roster report_dates.
Proof.
  destruct ((process_player_data ragged_players).1 !! "alice") as [e|] eqn:He;
    [|exfalso; vm_compute in He; discriminate He].
  exists "alice", {| roster_id := 2; roster_status := "ok" |}, e.
  split; [|split; [exact He|]].
  - unfold report_roster. apply elem_of_cons; right. apply elem_of_cons; right.
    apply elem_of_cons; left. reflexivity.
  - vm_compute in He. injection He as <-. cbn. lia.
Defined.

Lemma report_raises_on_wide_rows_only_witness :
  ragged_report
  = ((our_players (process_player_data ragged_players).1 report_roster).2
       ++ [StepTargetLine 10000],
     Raise ValueError).
Proof.
  exact (proj1 (report_raises_on_wide_rows_only ragged_players report_roster report_dates
                  10000 "2024-01-03") ragged_report_wider).
Defined.

End Pipeline.

(** ** More on main *)

Section MainOutcome.


(** The ways [main] can end, with the call of [display_results] when it is
    reached. *)
Lemma main_outcome w r :
  main w = Some r ->
  (length (argv w) <> 2%nat /\ r = {| printed := [Usage]; exit_status := 1; saved := None |})
  \/ (length (argv w) = 2%nat /\ exit_status r = 0 /\ saved r = None
      /\ forall e, last (printed r) <> Some (Traceback e))
  \/ (length (argv w) = 2%nat /\ users_csv w <> []
      /\ exists info players game_dates pre,
           overview w = Some info
           /\ match display_results (process_player_data players).1 (users_csv w)
                      game_dates (step_target info) (today w) with
              | (out, Ok table) =>
                r = {| printed := pre ++ out; exit_status := 0; saved := table |}
              | (out, Raise e) =>
                r = {| printed := pre ++ out ++ [Traceback e]; exit_status := 1;
                       saved := None |}
              end).
Proof.
  unfold main.
  destruct (Nat.eqb_spec (length (argv w)) 2) as [Hargs|Hargs]; cbn [negb].
  2: { intros [= <-]. left. auto. }
  assert (Hmsg : forall (pre : list event) msg,
            (forall e, msg <> Traceback e) ->
            forall e, last (pre ++ [msg]) <> Some (Traceback e)).
  { intros pre msg Hne e. rewrite last_snoc. intros [= ->]. now apply (Hne e). }
  case_bool_decide as Hroster.
  { intros [= <-]; right; left. repeat split; [exact Hargs|]. now apply (Hmsg []). }
  destruct (overview w) as [info|].
  2: { intros [= <-]; right; left. repeat split; [exact Hargs|].
       now apply (Hmsg [StartFetching]). }
  destruct (network w) as [|reply0 net]; [discriminate|].
  destruct (get_game_data reply0 0 20) as [initial_data out1].
  destruct (falsy initial_data).
  { intros [= <-]; right; left. repeat split; [exact Hargs|].
    now apply (Hmsg ([StartFetching; GameInformation] ++ out1)). }
  case_bool_decide as Hdates.
  { intros [= <-]; right; left. repeat split; [exact Hargs|].
    now apply (Hmsg ([StartFetching; GameInformation] ++ out1)). }
  destruct (get_all_game_data net) as [[players out2]|]; [|discriminate].
  case_bool_decide as Hplayers.
  { intros [= <-]; right; left. repeat split; [exact Hargs|].
    now apply (Hmsg (([StartFetching; GameInformation] ++ out1) ++ out2)). }
  destruct (process_player_data players) as [pd out3] eqn:Hpd.
  case_bool_decide as Hdata.
  { intros [= <-]; right; left. repeat split; [exact Hargs|].
    now apply (Hmsg ((([StartFetching; GameInformation] ++ out1) ++ out2)
                       ++ [SuccessfullyFetched] ++ out3)). }
  intros H. right. right. split; [exact Hargs|]. split; [exact Hroster|].
  exists info, players, (dates_of_first_page initial_data), 
    (([StartFetching; GameInformation] ++ out1) ++ out2 ++ [SuccessfullyFetched] ++ out3).
  split; [reflexivity|]. rewrite Hpd. cbn [fst].
  destruct (display_results pd _ _ _ _) as [out4 [table|e]]; injection H as <-;
    now rewrite <- ?app_assoc.
Qed.


(** A run with one argument in which a roster player has four values while
    the first player of the first page has three days. *)
Example run_on_ragged_campaign :
  main world_ragged
  = Some {| printed := [StartFetching; GameInformation; Fetching 0 20; Fetched 2;
                        Fetching 0 20; Fetched 2; FetchedSoFar 2; ReachedEnd;
                        FinalFetched 2; SuccessfullyFetched; StartProcessing 2;
                        DoneProcessing 2; UserNotFound "ghost"; StepTargetLine 10000;
                        Traceback ValueError];
            exit_status := 1; saved := None |}.
Proof. vm_compute. reflexivity. Qed.


(** X15.  A table is only saved by a run that had one command-line
    argument, a roster that is not empty and a campaign overview; the table
    then has at least one row, the run ends with status 0 and its last line
    is the one that names the saved file. *)
Theorem saved_table_needs_inputs (w : world) (r : run) (table : csv) :
  main w = Some r -> saved r = Some table ->
  length (argv w) = 2%nat
  /\ users_csv w <> []
  /\ is_Some (overview w)
  /\ rows table <> []
  /\ exit_status r = 0
  /\ last (printed r) = Some DataSaved.
Proof.
  intros H Hsaved. destruct (main_outcome w r H)
    as [(_ & ->)|[(_ & _ & Hnone & _)|(Hargs & Hroster & info & players & dates & pre
                                       & Hinfo & Hr)]]; [discriminate Hsaved|congruence|].
  destruct (display_results _ _ _ _ _) as [out [table'|e]] eqn:Hres; subst r;
    cbn [saved] in Hsaved; [|discriminate Hsaved]. subst table'.
  apply display_results_saved in Hres as (Hne & Hrows & -> & _).
  destruct (rows_of_sorted _ _ _ _ _ Hrows) as (_ & _ & Hlen).
  split; [exact Hargs|]. split; [exact Hroster|]. split; [now rewrite Hinfo|].
  split; [|split; [reflexivity|]].
  - intros Hnil. rewrite Hnil in Hlen. destruct (our_players _ _).1; [now apply Hne|].
    discriminate Hlen.
  - cbn [printed].
    change [StepTargetLine (step_target info); DataSaved]
      with ([StepTargetLine (step_target info)] ++ [DataSaved]).
    rewrite !app_assoc. apply last_snoc.
Qed.

Lemma saved_table_needs_inputs_witness :
  exists r table,
    main (example_world "2024-01-03") = Some r /\ saved r = Some table
    /\ length (argv (example_world "2024-01-03")) = 2%nat
    /\ users_csv (example_world "2024-01-03") <> []
    /\ is_Some (overview (example_world "2024-01-03"))
    /\ rows table <> []
    /\ exit_status r = 0
    /\ last (printed r) = Some DataSaved.
Proof.
  destruct (main (example_world "2024-01-03")) as [r|] eqn:H;
    [|exfalso; vm_compute in H; discriminate H].
  destruct (saved r) as [table|] eqn:Hs.
  2: { exfalso. vm_compute in H. injection H as <-. discriminate Hs. }
  exists r, table. split; [reflexivity|]. split; [exact Hs|].
  exact (saved_table_needs_inputs _ _ _ H Hs).
Defined.

End MainOutcome.

(** ** More on get_all_game_data *)

Section Pages.

Lemma answer_page players st :
  falsy (answer (page players) st) = false /\ get_val (answer (page players) st) = players.
Proof. split; reflexivity. Qed.

Lemma loop_body_full_page players st :
  take <= len players ->
  exists st', loop_body (page players) st = Continue st'
              /\ all_players st' = all_players st ++ players
              /\ skip st' = skip st + take
              /\ requested_offsets (console st')
                 = requested_offsets (console st) ++ [skip st].
Proof.
  intros Hfull. pose proof (loop_body_spec (page players) st) as Hspec.
  destruct (answer_page players st) as [Hf Hval]. rewrite Hf, Hval in Hspec.
  destruct (loop_body (page players) st) as [st'|st'].
  - destruct Hspec as [(Hf' & _)|(_ & _ & Hskip & Hall & _ & Hcons)]; [discriminate Hf'|].
    exists st'. repeat split; try assumption.
    now rewrite Hcons, !requested_offsets_app, requested_offsets_request,
      requested_offsets_page_lines, app_nil_r.
  - destruct Hspec as [(Hf' & _)|(_ & Hshort & _)]; [discriminate Hf' | lia].
Qed.

Lemma loop_body_short_page players st :
  len players < take ->
  exists st', loop_body (page players) st = Break st'
              /\ all_players st' = all_players st ++ players
              /\ requested_offsets (console st')
                 = requested_offsets (console st) ++ [skip st].
Proof.
  intros Hshort. pose proof (loop_body_spec (page players) st) as Hspec.
  destruct (answer_page players st) as [Hf Hval]. rewrite Hf, Hval in Hspec.
  destruct (loop_body (page players) st) as [st'|st'].
  - destruct Hspec as [(Hf' & _)|(_ & Hfull & _)]; [discriminate Hf' | lia].
  - destruct Hspec as [(Hf' & _)|(_ & _ & Hall & _ & Hcons)]; [discriminate Hf'|].
    exists st'. repeat split; try assumption.
    now rewrite Hcons, !requested_offsets_app, requested_offsets_request,
      requested_offsets_page_lines, app_nil_r.
Qed.

Lemma iterate_full_pages ps st :
  Forall (fun p => take <= len p) ps ->
  exists st', iterate (map page ps) st = Some st'
              /\ all_players st' = all_players st ++ concat ps
              /\ skip st' = skip st + take * len ps
              /\ requested_offsets (console st')
                 = requested_offsets (console st)
                   ++ map (fun k => skip st + take * Z.of_nat k) (seq 0 (length ps)).
Proof.
  intros Hps. revert st. induction Hps as [|p ps Hp _ IH]; intros st.
  - exists st. cbn. rewrite !app_nil_r. repeat split. unfold len. cbn. lia.
  - destruct (loop_body_full_page p st Hp) as (st1 & Hbody & Hall & Hskip & Hoff).
    destruct (IH st1) as (st' & Hit & Hall' & Hskip' & Hoff').
    exists st'. cbn [map iterate]. rewrite Hbody. split; [exact Hit|].
    split; [rewrite Hall', Hall; cbn [concat]; now rewrite app_assoc|].
    split; [rewrite Hskip', Hskip, len_cons; lia|].
    rewrite Hoff', Hoff, <- app_assoc. f_equal. cbn [length seq map app].
    f_equal; [lia|]. rewrite <- seq_shift, map_map. apply map_ext. intros k. lia.
Qed.

(** X16.  When the endpoint answers with pages of at least 20 records
    followed by a page of fewer than 20, the loop returns the records of
    all pages in the order received, and the requests were made at the
    offsets 0, 20, 40, ..: the offset grows by 20 per page even when a page
    held more than 20 records. *)
Theorem pages_are_concatenated (ps : list (list player)) (last_page : list player) :
  Forall (fun p => take <= len p) ps -> len last_page < take ->
  exists out,
    get_all_game_data (map page ps ++ [page last_page]) = Some (concat ps ++ last_page, out)
    /\ requested_offsets out = map (fun k => 20 * Z.of_nat k) (seq 0 (S (length ps))).
Proof.
  intros Hps Hlast.
  destruct (iterate_full_pages ps initial_state Hps) as (st & Hit & Hall & Hskip & Hoff).
  destruct (loop_body_short_page last_page st Hlast) as (st' & Hbody & Hall' & Hoff').
  unfold get_all_game_data. rewrite (fetch_loop_iterate _ _ _ _ Hit).
  cbn [fetch_loop]. rewrite Hbody. eexists. split.
  - rewrite Hall', Hall. reflexivity.
  - rewrite requested_offsets_app, Hoff', Hoff, Hskip. cbn [initial_state skip console
      requested_offsets app]. rewrite app_nil_r, seq_S, map_app. cbn [map].
    unfold take, len. rewrite !Z.add_0_l, Nat.add_0_l. reflexivity.
Qed.

Lemma pages_are_concatenated_witness :
  Forall (fun p => take <= len p) pages_example /\ len last_page_example < take
  /\ exists out,
       get_all_game_data (map page pages_example ++ [page last_page_example])
       = Some (concat pages_example ++ last_page_example, out)
       /\ requested_offsets out
          = map (fun k => 20 * Z.of_nat k) (seq 0 (S (length pages_example))).
Proof.
  assert (Hps : Forall (fun p => take <= len p) pages_example).
  { repeat constructor; vm_compute; discriminate. }
  assert (Hlast : len last_page_example < take) by reflexivity.
  split; [exact Hps|]. split; [exact Hlast|].
  exact (pages_are_concatenated pages_example last_page_example Hps Hlast).
Defined.

End Pages.

Section RequestsPerOffset.

Lemma times_requested_app o a b :
  times_requested o (a ++ b) = (times_requested o a + times_requested o b)%nat.
Proof. unfold times_requested. now rewrite requested_offsets_app, count_occ_app. Qed.

Lemma times_requested_request o r st :
  times_requested o (request_lines r st) = if Z.eq_dec (skip st) o then 1%nat else 0%nat.
Proof.
  unfold times_requested. rewrite requested_offsets_request. cbn [count_occ].
  now destruct (Z.eq_dec (skip st) o).
Qed.

Lemma times_requested_page_lines o st players :
  times_requested o (page_lines st players) = 0%nat.
Proof. unfold times_requested. now rewrite requested_offsets_page_lines. Qed.

(** After one more request at the current offset, whatever follows it on
    the console. *)
Lemma times_requested_step o r st tail :
  requested_offsets tail = [] ->
  times_requested o (console st ++ request_lines r st ++ tail)
  = (times_requested o (console st) + if Z.eq_dec (skip st) o then 1 else 0)%nat.
Proof.
  intros Htail. rewrite !times_requested_app, times_requested_request.
  assert (Hzero : times_requested o tail = 0%nat)
    by (unfold times_requested; now rewrite Htail).
  rewrite Hzero. lia.
Qed.

Lemma requests_invariant_initial : requests_invariant initial_state.
Proof.
  unfold requests_invariant, times_requested. cbn. unfold max_retries.
  repeat split; intros; lia.
Qed.

Lemma loop_body_requests r st :
  requests_invariant st ->
  match loop_body r st with
  | Continue st' => requests_invariant st'
  | Break st' => forall o, (times_requested o (console st') <= 4)%nat
  end.
Proof.
  intros (Hrc & Hcur & Hbeyond & Hmax).
  pose proof (loop_body_spec r st) as Hspec.
  destruct (loop_body r st) as [st'|st'].
  - destruct Hspec as [(_ & Hlt & Hskip & _ & Hrc' & Hcons)
                      |(_ & _ & Hskip & _ & Hrc' & Hcons)].
    + unfold max_retries in Hlt, Hrc. unfold requests_invariant, max_retries. rewrite Hskip, Hrc', Hcons. split; [lia|].
      split; [|split]; intros; rewrite times_requested_step by reflexivity.
      * destruct (Z.eq_dec (skip st) (skip st)); lia.
      * rewrite Hbeyond by assumption. destruct (Z.eq_dec (skip st) o); lia.
      * destruct (Z.eq_dec (skip st) o) as [<-|_]; [lia|]. specialize (Hmax o). lia.
    + unfold requests_invariant. rewrite Hskip, Hrc', Hcons. unfold take, max_retries.
      split; [lia|].
      split; [|split]; intros;
        rewrite times_requested_step by apply requested_offsets_page_lines.
      * rewrite Hbeyond by lia. destruct (Z.eq_dec (skip st) (skip st + 20)); lia.
      * rewrite Hbeyond by lia. destruct (Z.eq_dec (skip st) o); lia.
      * destruct (Z.eq_dec (skip st) o) as [<-|_]; [|specialize (Hmax o); lia].
        unfold max_retries in Hrc. lia.
  - intros o.
    destruct Hspec as [(_ & _ & _ & Hcons)|(_ & _ & _ & _ & Hcons)]; rewrite Hcons.
    + rewrite times_requested_step by reflexivity.
      destruct (Z.eq_dec (skip st) o) as [<-|_]; [|specialize (Hmax o); lia].
      unfold max_retries in Hrc. lia.
    + rewrite times_requested_step by apply requested_offsets_page_lines.
      destruct (Z.eq_dec (skip st) o) as [<-|_]; [|specialize (Hmax o); lia].
      unfold max_retries in Hrc. lia.
Qed.

Lemma fetch_loop_requests net st st' rest :
  requests_invariant st -> fetch_loop net st = Some (st', rest) ->
  forall o, (times_requested o (console st') <= 4)%nat.
Proof.
  revert st. induction net as [|r net IH]; intros st Hinv; cbn [fetch_loop]; [discriminate|].
  pose proof (loop_body_requests r st Hinv) as Hstep.
  destruct (loop_body r st) as [st1|st1].
  - now apply IH.
  - now intros [= <- <-].
Qed.

(** X17.  Whatever the endpoint answers, a fetch that ends has requested no
    offset more than four times: the first attempt and at most three
    retries. *)
Theorem at_most_four_requests_per_offset (net : list reply) (players : list player)
    (out : list event) (o : Z) :
  get_all_game_data net = Some (players, out) -> (times_requested o out <= 4)%nat.
Proof.
  unfold get_all_game_data.
  destruct (fetch_loop net initial_state) as [[st rest]|] eqn:Hloop; [|discriminate].
  intros [= _ <-]. rewrite times_requested_app.
  pose proof (fetch_loop_requests _ _ _ _ requests_invariant_initial Hloop o).
  change (times_requested o [FinalFetched (len (all_players st))]) with 0%nat. lia.
Qed.

Lemma at_most_four_requests_per_offset_witness :
  exists players out,
    get_all_game_data run_exhausted = Some (players, out)
    /\ times_requested 20 out = 4%nat
    /\ (times_requested 20 out <= 4)%nat.
Proof.
  destruct (get_all_game_data run_exhausted) as [[players out]|] eqn:H;
    [|exfalso; vm_compute in H; discriminate H].
  exists players, out. split; [reflexivity|]. split.
  - vm_compute in H. injection H as _ <-. reflexivity.
  - exact (at_most_four_requests_per_offset _ _ _ 20 H).
Defined.

End RequestsPerOffset.

(** ** get_usernames_from_csv *)

Section Roster.

Example roster_file_read :
  get_usernames_from_csv (Some roster_file)
  = [("walker", {| roster_id := 9; roster_status := "banned" |});
     ("alice", {| roster_id := 2; roster_status := "ok" |})].
Proof. reflexivity. Qed.

Lemma replace_removes c s : has_char c (replace (String c "") "" s) = false.
Proof.
  unfold replace. induction s as [|a r IH]; [reflexivity|].
  cbn [replace_from String.prefix String.length Nat.pred].
  destruct (ascii_dec c a) as [<-|Hne].
  - destruct r; exact IH.
  - cbn [has_char]. rewrite IH.
    destruct (Ascii.eqb_spec a c) as [->|_]; [now destruct Hne | reflexivity].
Qed.

Lemma dict_set_keys k v d u :
  u ∈ (dict_set k v d).*1 <-> u = k \/ u ∈ d.*1.
Proof.
  induction d as [|[k' v'] rest IH]; cbn [dict_set].
  - cbn. rewrite list_elem_of_singleton, elem_of_nil. tauto.
  - case_bool_decide as Hk; cbn [fmap list_fmap fst]; rewrite !elem_of_cons.
    + subst k'. tauto.
    + fold (fmap (M:=list) (@fst string roster_entry)). rewrite IH. tauto.
Qed.

Lemma dict_set_NoDup k v d : NoDup d.*1 -> NoDup (dict_set k v d).*1.
Proof.
  induction d as [|[k' v'] rest IH]; cbn [dict_set].
  - intros _. cbn. apply NoDup_singleton.
  - cbn [fmap list_fmap fst]. fold (fmap (M:=list) (@fst string roster_entry)).
    intros [Hnot Hrest]%NoDup_cons. case_bool_decide as Hk.
    + subst k'. cbn [fmap list_fmap fst]. now apply NoDup_cons.
    + cbn [fmap list_fmap fst]. fold (fmap (M:=list) (@fst string roster_entry)).
      apply NoDup_cons. split; [|now apply IH].
      rewrite dict_set_keys. intros [->|H]; [now apply Hk | now apply Hnot].
Qed.

Lemma dict_set_items k v d u w :
  (u, w) ∈ dict_set k v d -> (u, w) = (k, v) \/ (u, w) ∈ d.
Proof.
  induction d as [|[k' v'] rest IH]; cbn [dict_set].
  - intros H%list_elem_of_singleton. now left.
  - case_bool_decide as Hk; rewrite !elem_of_cons; intros [H|H]; auto.
    destruct (IH H); auto.
Qed.

Lemma dict_set_stored k v d : NoDup d.*1 -> forall w, (k, w) ∈ dict_set k v d -> w = v.
Proof.
  induction d as [|[k' v'] rest IH]; cbn [dict_set].
  - intros _ w H%list_elem_of_singleton. congruence.
  - cbn [fmap list_fmap fst]. fold (fmap (M:=list) (@fst string roster_entry)).
    intros [Hnot Hrest]%NoDup_cons w. case_bool_decide as Hk.
    + subst k'. intros [H|H]%elem_of_cons; [congruence|].
      destruct Hnot. apply list_elem_of_fmap. now exists (k, w).
    + intros [H|H]%elem_of_cons; [congruence | now apply IH].
Qed.

Lemma dict_set_present k v d : (k, v) ∈ dict_set k v d.
Proof.
  induction d as [|[k' v'] rest IH]; cbn [dict_set]; [now apply list_elem_of_singleton|].
  case_bool_decide; [now apply elem_of_cons; left | now apply elem_of_cons; right].
Qed.

(** What the loop keeps true of the dictionary it builds. *)
Lemma roster_invariant table acc :
  NoDup acc.*1 ->
  (forall u, u ∈ acc.*1 -> has_char "@" u = false) ->
  NoDup (foldl add_roster_row acc table).*1
  /\ (forall u, u ∈ (foldl add_roster_row acc table).*1 -> has_char "@" u = false)
  /\ (forall u info, (u, info) ∈ foldl add_roster_row acc table ->
        (u, info) ∈ acc
        \/ exists row name, row ∈ table /\ Name row = VStr name
                            /\ u = replace "@" "" name
                            /\ info = {| roster_id := ID row;
                                         roster_status := account_status row |}).
Proof.
  revert acc. induction table as [|row rest IH]; intros acc Hdup Hat; cbn [foldl].
  - repeat split; auto.
  - assert (Hdup' : NoDup (add_roster_row acc row).*1).
    { unfold add_roster_row. destruct (Name row); try exact Hdup. now apply dict_set_NoDup. }
    assert (Hat' : forall u, u ∈ (add_roster_row acc row).*1 -> has_char "@" u = false).
    { unfold add_roster_row. destruct (Name row) as [| |name]; try exact Hat.
      intros u [->|Hu]%dict_set_keys; [apply replace_removes | now apply Hat]. }
    destruct (IH _ Hdup' Hat') as (H1 & H2 & H3). split; [exact H1|]. split; [exact H2|].
    intros u info Hin. destruct (H3 u info Hin) as [Hacc|(r & name & Hr & Hn & Hu & Hi)].
    + unfold add_roster_row in Hacc. destruct (Name row) as [| |name] eqn:Hname; auto.
      apply dict_set_items in Hacc as [[= -> ->]|Hacc]; [|now left].
      right. exists row, name. repeat split; [now apply elem_of_cons; left | exact Hname].
    + right. exists r, name. repeat split; try assumption. now apply elem_of_cons; right.
Qed.

Lemma dict_set_other k v k' v' d :
  k' <> k -> (k, v) ∈ d -> (k, v) ∈ dict_set k' v' d.
Proof.
  intros Hne. induction d as [|[k0 v0] rest IH]; cbn [dict_set].
  - intros H. now apply elem_of_nil in H.
  - case_bool_decide as Hk; rewrite !elem_of_cons.
    + subst k0. intros [[= -> ->]|H]; [now destruct Hne | now right].
    + intros [H|H]; [now left | right; now apply IH].
Qed.

(** The keys of the dictionary after the loop. *)
Lemma roster_keys table acc u :
  u ∈ (foldl add_roster_row acc table).*1
  <-> u ∈ acc.*1
      \/ exists row name, row ∈ table /\ Name row = VStr name /\ u = replace "@" "" name.
Proof.
  revert acc. induction table as [|row rest IH]; intros acc; cbn [foldl].
  - split; [now left|]. intros [H|(row & name & H & _)]; [exact H|].
    now apply elem_of_nil in H.
  - rewrite IH. unfold add_roster_row at 1. split.
    + intros [H|(r & name & Hr & Hn & Hu)].
      * destruct (Name row) as [| |name] eqn:Hname; auto.
        apply dict_set_keys in H as [->|H]; [|now left].
        right. exists row, name. repeat split; [now apply elem_of_cons; left | exact Hname].
      * right. exists r, name. repeat split; try assumption. now apply elem_of_cons; right.
    + intros [H|(r & name & [->|Hr]%elem_of_cons & Hn & Hu)].
      * left. destruct (Name row); auto. apply dict_set_keys. now right.
      * left. rewrite Hn. apply dict_set_keys. now left.
      * right. now exists r, name.
Qed.

(** An item stays in the dictionary while no later row has its key. *)
Lemma roster_item_kept table acc k v :
  (k, v) ∈ acc ->
  (forall row name, row ∈ table -> Name row = VStr name -> replace "@" "" name <> k) ->
  (k, v) ∈ foldl add_roster_row acc table.
Proof.
  revert acc. induction table as [|row rest IH]; intros acc Hin Hlater; cbn [foldl];
    [exact Hin|].
  apply IH.
  - unfold add_roster_row. destruct (Name row) as [| |name] eqn:Hname; auto.
    apply dict_set_other; [|exact Hin]. apply (Hlater row name); [|exact Hname].
    now apply elem_of_cons; left.
  - intros r name Hr. apply Hlater. now apply elem_of_cons; right.
Qed.

(** X18.  A file that cannot be read gives the empty roster.  Otherwise the
    usernames of the roster [get_usernames_from_csv] returns are exactly
    the names of the rows whose Name cell is a text, with every ['@']
    removed (not only a leading one); no username is repeated.  A row with
    a text as name whose username does not come again in a later row is in
    the roster with its own ID and status, so a later row replaces an
    earlier one of the same username; and every entry of the roster has the
    ID and status of some row of that username. *)
Theorem roster_usernames (table : list roster_row) :
  get_usernames_from_csv None = []
  /\ NoDup (get_usernames_from_csv (Some table)).*1
  /\ (forall u, u ∈ (get_usernames_from_csv (Some table)).*1 -> has_char "@" u = false)
  /\ (forall u, u ∈ (get_usernames_from_csv (Some table)).*1
        <-> exists row name, row ∈ table /\ Name row = VStr name
                             /\ u = replace "@" "" name)
  /\ (forall before row after name,
        table = before ++ row :: after ->
        Name row = VStr name ->
        (forall later name', later ∈ after -> Name later = VStr name' ->
           replace "@" "" name' <> replace "@" "" name) ->
        (replace "@" "" name,
         {| roster_id := ID row; roster_status := account_status row |})
        ∈ get_usernames_from_csv (Some table))
  /\ (forall u info, (u, info) ∈ get_usernames_from_csv (Some table) ->
        exists row name, row ∈ table /\ Name row = VStr name
                         /\ u = replace "@" "" name
                         /\ info = {| roster_id := ID row;
                                      roster_status := account_status row |}).
Proof.
  cbn [get_usernames_from_csv].
  destruct (roster_invariant table [] (NoDup_nil_2 (A:=string)))
    as (Hdup & Hat & Hitems); [intros u Hu; now apply elem_of_nil in Hu|].
  split; [reflexivity|]. split; [exact Hdup|]. split; [exact Hat|].
  split; [|split].
  - intros u. rewrite roster_keys. split; [|now right].
    intros [H|H]; [now apply elem_of_nil in H | exact H].
  - intros before row after name -> Hname Hlater. rewrite foldl_app. cbn [foldl].
    apply roster_item_kept; [|exact Hlater].
    unfold add_roster_row. rewrite Hname. apply dict_set_present.
  - intros u info Hin. destruct (Hitems u info Hin) as [Hnil|H]; [|exact H].
    now apply elem_of_nil in Hnil.
Qed.

End Roster.

Section RosterExample.

Lemma roster_usernames_witness :
  "alice" ∈ (get_usernames_from_csv (Some roster_file)).*1
  /\ ("walker", {| roster_id := 9; roster_status := "banned" |})
     ∈ get_usernames_from_csv (Some roster_file)
  /\ NoDup (get_usernames_from_csv (Some roster_file)).*1.
Proof.
  destruct (roster_usernames roster_file) as (_ & Hdup & _ & Hkeys & Hlast & _).
  split; [|split; [|exact Hdup]].
  - apply Hkeys. exists {| Name := VStr "ali@ce"; ID := 2; account_status := "ok" |}, "ali@ce".
    split; [|split; reflexivity].
    unfold roster_file. apply elem_of_cons; right. apply elem_of_cons; right.
    apply elem_of_cons; left. reflexivity.
  - apply (Hlast (firstn 3 roster_file)
                 {| Name := VStr "walker"; ID := 9; account_status := "banned" |}
                 [] "walker"); [reflexivity | reflexivity |].
    intros later name' Hin. now apply elem_of_nil in Hin.
Defined.

End RosterExample.

(** ** The first page in main *)

Section FirstPage.






End FirstPage.
